(** * ETF dashboard: the multi-provider aggregation layer

    A shallow embedding of [src/lib/api/base-provider.ts],
    [src/lib/api/provider-factory.ts] and of the five provider classes
    under [src/lib/api/providers/], followed by the properties of the
    fallback engine, the health tracker and the priority list.

    Conventions of the embedding.
    - A JavaScript [Map] is a [gmap]; an array is a [list].
    - An [async] method is a function of the outside world: it takes the
      world before the call and gives back how the promise settled
      together with the world after it ([Promise]).
    - Strings are Rocq strings, read as UTF-8: a character outside ASCII
      is the two or three bytes of its encoding.  White space is that of
      ECMAScript ([WhiteSpace] and [LineTerminator]), which is what
      [String.prototype.trim] strips.
    - The wire formats (URL building, JSON conversion) live in the part of
      a provider method that talks to the network; that part is a field of
      the class [Network] and is never unfolded. *)

From Stdlib Require Import Ascii.
From stdpp Require Import gmap strings list.

Open Scope Z_scope.

(** ** JavaScript odds and ends *)

(** An exception object.  [`${error}`] renders it with
    [Error.prototype.toString]. *)
Record JsError := { errorName : string; message : string }.

Definition Error (msg : string) : JsError :=
  {| errorName := "Error"; message := msg |}.

Definition Error_toString (e : JsError) : string :=
  if decide (errorName e = "") then message e
  else if decide (message e = "") then errorName e
  else errorName e +:+ ": " +:+ message e.

(** [`${x}`] for an optional string: [undefined] prints as "undefined". *)
Definition template (x : option string) : string :=
  match x with Some s => s | None => "undefined" end.

(** White space in one byte: TAB, LF, VT, FF, CR and SP. *)
Definition isWhiteSpace (c : ascii) : bool :=
  let n := nat_of_ascii c in
  ((9 <=? n) && (n <=? 13) || (n =? 32))%nat.

(** In two bytes: U+00A0 (C2 A0). *)
Definition isWhiteSpace2 (c1 c2 : ascii) : bool :=
  ((nat_of_ascii c1 =? 194) && (nat_of_ascii c2 =? 160))%nat.

(** In three bytes: U+1680 (E1 9A 80), U+2000 to U+200A (E2 80 80 to
    E2 80 8A), U+2028 and U+2029 (E2 80 A8, E2 80 A9), U+202F (E2 80 AF),
    U+205F (E2 81 9F), U+3000 (E3 80 80) and U+FEFF (EF BB BF). *)
Definition isWhiteSpace3 (c1 c2 c3 : ascii) : bool :=
  let a := nat_of_ascii c1 in
  let b := nat_of_ascii c2 in
  let c := nat_of_ascii c3 in
  ((a =? 225) && ((b =? 154) && (c =? 128))
   || (a =? 226) && ((b =? 128)
                      && ((128 <=? c) && (c <=? 138) || (c =? 168) || (c =? 169)
                          || (c =? 175))
                     || (b =? 129) && (c =? 159))
   || (a =? 227) && ((b =? 128) && (c =? 128))
   || (a =? 239) && ((b =? 187) && (c =? 191)))%nat.

(** What follows the white-space character a string starts with, if it
    starts with one. *)
Definition skipWhiteSpace (s : string) : option string :=
  match s with
  | String c1 s1 =>
      if isWhiteSpace c1 then Some s1
      else match s1 with
           | String c2 s2 =>
               if isWhiteSpace2 c1 c2 then Some s2
               else match s2 with
                    | String c3 s3 => if isWhiteSpace3 c1 c2 c3 then Some s3 else None
                    | EmptyString => None
                    end
           | EmptyString => None
           end
  | EmptyString => None
  end.

Fixpoint trimStart (s : string) : string :=
  match s with
  | String c1 s1 =>
      if isWhiteSpace c1 then trimStart s1
      else match s1 with
           | String c2 s2 =>
               if isWhiteSpace2 c1 c2 then trimStart s2
               else match s2 with
                    | String c3 s3 => if isWhiteSpace3 c1 c2 c3 then trimStart s3 else s
                    | EmptyString => s
                    end
           | EmptyString => s
           end
  | EmptyString => EmptyString
  end.

(** Empty or made of white space only. *)
Fixpoint blank (s : string) : bool :=
  match s with
  | String c1 s1 =>
      if isWhiteSpace c1 then blank s1
      else match s1 with
           | String c2 s2 =>
               if isWhiteSpace2 c1 c2 then blank s2
               else match s2 with
                    | String c3 s3 => isWhiteSpace3 c1 c2 c3 && blank s3
                    | EmptyString => false
                    end
           | EmptyString => false
           end
  | EmptyString => true
  end.

(** The string is cut where nothing but white space follows. *)
Fixpoint trimEnd (s : string) : string :=
  match s with
  | String c rest => if blank s then EmptyString else String c (trimEnd rest)
  | EmptyString => EmptyString
  end.

(** [String.prototype.trim] *)
Definition trim (s : string) : string := trimEnd (trimStart s).

(** [Array.prototype.join] *)
Definition join (sep : string) (parts : list string) : string :=
  String.concat sep parts.

(** ** Domain model ([src/lib/types/etf.ts]) *)

(** The normalized entities are flat records of JavaScript numbers and
    strings; the aggregation layer never looks inside them. *)
Class Entities := {
  ETFQuote : Type;
  ETFMetadata : Type;
  ETFHolding : Type;
  ETFSectorAllocation : Type;
  ETFCountryAllocation : Type;
  ETFPerformance : Type;
  ETFHistoricalData : Type;
  SearchResult : Type;
  Date : Type;
}.

(** The [data] field holds a value on success, [{} as T] in
    [createErrorResponse] and [null as T] in the factory's own failure. *)
Inductive Data (T : Type) : Type :=
  | Value (v : T)
  | EmptyObject
  | Null.
Arguments Value {T} v.
Arguments EmptyObject {T}.
Arguments Null {T}.

Record ProviderResponse (T : Type) : Type := {
  data : Data T;
  provider : string;
  timestamp : Z;
  success : bool;
  error : option string;
}.
Arguments data {T} _.
Arguments provider {T} _.
Arguments timestamp {T} _.
Arguments success {T} _.
Arguments error {T} _.

Record RateLimit := { requestsPerMinute : Z; requestsPerDay : Z }.

Record ProviderConfig := {
  configName : string;
  apiKey : string;
  baseUrl : string;
  rateLimit : RateLimit;
  endpoints : list (string * string);
}.

(** ** The outside world *)

(** How an awaited call settles. *)
Inductive Settled (T : Type) : Type :=
  | Resolved (result : ProviderResponse T)
  | Rejected (thrown : JsError).
Arguments Resolved {T} result.
Arguments Rejected {T} thrown.

(** What the network part of a provider method does once the argument
    checks have passed: it ends in [createSuccessResponse(d)], in
    [createErrorResponse(msg)] (for example 'No quote data found'), or it
    throws (a failed request, a response that cannot be converted). *)
Inductive Fetched (T : Type) : Type :=
  | Found (d : T)
  | NoData (msg : string)
  | Failed (thrown : JsError).
Arguments Found {T} d.
Arguments NoData {T} msg.
Arguments Failed {T} thrown.

(** ** Provider names and capabilities ([provider-factory.ts]) *)

Inductive ProviderName := polygon | finnhub | eodhd | fmp | alpha_vantage.

#[global] Instance ProviderName_eq_dec : EqDecision ProviderName.
Proof. solve_decision. Defined.

#[global] Instance ProviderName_countable : Countable ProviderName.
Proof.
  refine (inj_countable'
    (fun n => match n with
              | polygon => 0 | finnhub => 1 | eodhd => 2 | fmp => 3
              | alpha_vantage => 4
              end%nat)
    (fun i => match i with
              | 0 => polygon | 1 => finnhub | 2 => eodhd | 3 => fmp
              | _ => alpha_vantage
              end%nat) _).
  by intros [].
Defined.

(** The string a [ProviderName] stands for, as [`${providerName}`] prints it. *)
Definition ProviderName_toString (n : ProviderName) : string :=
  match n with
  | polygon => "polygon"
  | finnhub => "finnhub"
  | eodhd => "eodhd"
  | fmp => "fmp"
  | alpha_vantage => "alpha-vantage"
  end.

Record ProviderCredentials := {
  cred_polygon : option string;
  cred_finnhub : option string;
  cred_eodhd : option string;
  cred_fmp : option string;
  cred_alphaVantage : option string;
}.

Record ProviderCapabilities := {
  quote : bool;
  metadata : bool;
  holdings : bool;
  sectorAllocation : bool;
  countryAllocation : bool;
  performance : bool;
  historicalData : bool;
  search_ : bool;
}.

(** [keyof ProviderCapabilities] *)
Inductive CapabilityKey :=
  | key_quote | key_metadata | key_holdings | key_sectorAllocation
  | key_countryAllocation | key_performance | key_historicalData | key_search.

(** [capabilities[capability]] *)
Definition capabilityAt (c : ProviderCapabilities) (k : CapabilityKey) : bool :=
  match k with
  | key_quote => quote c
  | key_metadata => metadata c
  | key_holdings => holdings c
  | key_sectorAllocation => sectorAllocation c
  | key_countryAllocation => countryAllocation c
  | key_performance => performance c
  | key_historicalData => historicalData c
  | key_search => search_ c
  end.

(** The table inside [getProviderCapabilities]. *)
Definition capabilities (n : ProviderName) : option ProviderCapabilities :=
  Some match n with
  | polygon =>
      {| quote := true; metadata := true; holdings := false;
         sectorAllocation := false; countryAllocation := false;
         performance := false; historicalData := true; search_ := true |}
  | finnhub =>
      {| quote := true; metadata := true; holdings := true;
         sectorAllocation := true; countryAllocation := true;
         performance := false; historicalData := true; search_ := true |}
  | eodhd =>
      {| quote := true; metadata := true; holdings := true;
         sectorAllocation := true; countryAllocation := true;
         performance := false; historicalData := true; search_ := true |}
  | fmp =>
      {| quote := true; metadata := true; holdings := true;
         sectorAllocation := true; countryAllocation := true;
         performance := false; historicalData := true; search_ := true |}
  | alpha_vantage =>
      {| quote := true; metadata := true; holdings := false;
         sectorAllocation := false; countryAllocation := false;
         performance := false; historicalData := true; search_ := true |}
  end.

Definition getProviderCapabilities (providerName : ProviderName) : ProviderCapabilities :=
  match capabilities providerName with
  | Some c => c
  | None =>
      {| quote := false; metadata := false; holdings := false;
         sectorAllocation := false; countryAllocation := false;
         performance := false; historicalData := false; search_ := false |}
  end.

(** ** The network *)

(** The state of everything outside the process (remote services, the
    clock), and for each provider class, API key and operation the part of
    the method body that issues requests and converts the answer. *)
Class Network `{Entities} := {
  World : Type;
  Date_now : World -> Z;
  fetchQuote : ProviderName -> string -> string -> World -> Fetched ETFQuote * World;
  fetchMetadata : ProviderName -> string -> string -> World -> Fetched ETFMetadata * World;
  fetchHoldings : ProviderName -> string -> string -> World -> Fetched (list ETFHolding) * World;
  fetchSectorAllocation :
    ProviderName -> string -> string -> World -> Fetched (list ETFSectorAllocation) * World;
  fetchCountryAllocation :
    ProviderName -> string -> string -> World -> Fetched (list ETFCountryAllocation) * World;
  fetchHistoricalData :
    ProviderName -> string -> string -> string -> Date -> Date ->
    World -> Fetched ETFHistoricalData * World;
  fetchSearch :
    ProviderName -> string -> string -> Z -> World -> Fetched (list SearchResult) * World;
}.

(** An awaited asynchronous call. *)
Definition Promise `{Network} (T : Type) : Type := World -> Settled T * World.

(** ** The provider interface and its base class ([base-provider.ts]) *)

(** [config] is declared non-optional; [healthCheck] nevertheless tests
    it, so the embedding keeps the possibility of an absent one. *)
Record IETFDataProvider `{Network} := {
  name : string;
  config : option ProviderConfig;
  getQuote : string -> Promise ETFQuote;
  getMetadata : string -> Promise ETFMetadata;
  getHoldings : string -> Promise (list ETFHolding);
  getSectorAllocation : string -> Promise (list ETFSectorAllocation);
  getCountryAllocation : string -> Promise (list ETFCountryAllocation);
  getPerformance : string -> list string -> Promise (list ETFPerformance);
  getHistoricalData : string -> string -> Date -> Date -> Promise ETFHistoricalData;
  search : string -> Z -> Promise (list SearchResult);
}.

Definition createSuccessResponse `{Network} {T} (this_name : string) (d : T) (w : World)
  : ProviderResponse T :=
  {| data := Value d; provider := this_name; timestamp := Date_now w;
     success := true; error := None |}.

Definition createErrorResponse `{Network} {T} (this_name : string) (err : string) (w : World)
  : ProviderResponse T :=
  {| data := EmptyObject; provider := this_name; timestamp := Date_now w;
     success := false; error := Some err |}.

(** [validateSymbol] returns nothing or throws; [Some e] is the throw. *)
Definition validateSymbol (symbol : string) : option JsError :=
  if bool_decide (symbol = "") || (String.length (trim symbol) =? 0)%nat
  then Some (Error "Symbol is required")
  else None.

(** [BaseETFProvider.isHealthy]: a real probe, through [search]. *)
Definition isHealthy `{Network} (this : IETFDataProvider) : World -> bool * World :=
  fun w =>
    match search this "SPY" 1 w with
    | (Resolved response, w') => (success response, w')
    | (Rejected _, w') => (false, w')
    end.

(** The shape shared by every network-backed method taking a symbol:
[[
    try { this.validateSymbol(symbol); ...network part... }
    catch (error) { return this.createErrorResponse(`${what}: ${error}`); }
]] *)
Definition symbolRequest `{Network} {T} (this_name what symbol : string)
    (body : World -> Fetched T * World) : Promise T :=
  fun w =>
    match validateSymbol symbol with
    | Some thrown =>
        (Resolved (createErrorResponse this_name (what +:+ ": " +:+ Error_toString thrown) w), w)
    | None =>
        let '(fetched, w') := body w in
        (Resolved
           match fetched with
           | Found d => createSuccessResponse this_name d w'
           | NoData msg => createErrorResponse this_name msg w'
           | Failed thrown =>
               createErrorResponse this_name (what +:+ ": " +:+ Error_toString thrown) w'
           end, w')
    end.

(** The shape of every [search]:
[[
    try {
      if (!query || query.trim().length === 0)
        return this.createErrorResponse('Search query is required');
      ...network part...
    } catch (error) { return this.createErrorResponse(`Failed to search: ${error}`); }
]] *)
Definition searchRequest `{Network} {T} (this_name query : string)
    (body : World -> Fetched T * World) : Promise T :=
  fun w =>
    if bool_decide (query = "") || (String.length (trim query) =? 0)%nat
    then (Resolved (createErrorResponse this_name "Search query is required" w), w)
    else
      let '(fetched, w') := body w in
      (Resolved
         match fetched with
         | Found d => createSuccessResponse this_name d w'
         | NoData msg => createErrorResponse this_name msg w'
         | Failed thrown =>
             createErrorResponse this_name ("Failed to search: " +:+ Error_toString thrown) w'
         end, w').

(** A method that is a bare [return this.createErrorResponse(msg)]. *)
Definition notAvailable `{Network} {T} (this_name msg : string) : Promise T :=
  fun w => (Resolved (createErrorResponse this_name msg w), w).

(** ** The five provider classes ([providers/*.ts]) *)

Definition PolygonProvider `{Network} (key : string) : IETFDataProvider :=
  let this_name := "Polygon.io" in
  {| name := this_name;
     config := Some
       {| configName := this_name; apiKey := key;
          baseUrl := "https://api.polygon.io";
          rateLimit := {| requestsPerMinute := 5; requestsPerDay := 1000 |};
          endpoints :=
            [("quote", "/v2/aggs/ticker/{symbol}/prev");
             ("metadata", "/v3/reference/tickers/{symbol}");
             ("holdings", "/v1/reference/tickers/{symbol}/holdings");
             ("historical",
              "/v2/aggs/ticker/{symbol}/range/{multiplier}/{timespan}/{from}/{to}");
             ("search", "/v3/reference/tickers")] |};
     getQuote symbol :=
       symbolRequest this_name "Failed to fetch quote" symbol (fetchQuote polygon key symbol);
     getMetadata symbol :=
       symbolRequest this_name "Failed to fetch metadata" symbol
         (fetchMetadata polygon key symbol);
     getHoldings symbol :=
       notAvailable this_name "Holdings data not available in Polygon.io";
     getSectorAllocation symbol :=
       notAvailable this_name "Sector allocation data not available in Polygon.io";
     getCountryAllocation symbol :=
       notAvailable this_name "Country allocation data not available in Polygon.io";
     getPerformance symbol periods :=
       notAvailable this_name "Performance data calculation not implemented for Polygon.io";
     getHistoricalData symbol interval from to :=
       symbolRequest this_name "Failed to fetch historical data" symbol
         (fetchHistoricalData polygon key symbol interval from to);
     search query limit :=
       searchRequest this_name query (fetchSearch polygon key query limit) |}.

Definition FinnhubProvider `{Network} (key : string) : IETFDataProvider :=
  let this_name := "Finnhub" in
  {| name := this_name;
     config := Some
       {| configName := this_name; apiKey := key;
          baseUrl := "https://finnhub.io/api/v1";
          rateLimit := {| requestsPerMinute := 60; requestsPerDay := 1000 |};
          endpoints :=
            [("quote", "/quote"); ("metadata", "/stock/profile2");
             ("holdings", "/etf/holdings"); ("historical", "/stock/candle");
             ("search", "/search"); ("etfProfile", "/etf/profile");
             ("etfSector", "/etf/sector"); ("etfCountry", "/etf/country")] |};
     getQuote symbol :=
       symbolRequest this_name "Failed to fetch quote" symbol (fetchQuote finnhub key symbol);
     getMetadata symbol :=
       symbolRequest this_name "Failed to fetch metadata" symbol
         (fetchMetadata finnhub key symbol);
     getHoldings symbol :=
       symbolRequest this_name "Failed to fetch holdings" symbol
         (fetchHoldings finnhub key symbol);
     getSectorAllocation symbol :=
       symbolRequest this_name "Failed to fetch sector allocation" symbol
         (fetchSectorAllocation finnhub key symbol);
     getCountryAllocation symbol :=
       symbolRequest this_name "Failed to fetch country allocation" symbol
         (fetchCountryAllocation finnhub key symbol);
     getPerformance symbol periods :=
       notAvailable this_name "Performance data calculation not implemented for Finnhub";
     getHistoricalData symbol interval from to :=
       symbolRequest this_name "Failed to fetch historical data" symbol
         (fetchHistoricalData finnhub key symbol interval from to);
     search query limit :=
       searchRequest this_name query (fetchSearch finnhub key query limit) |}.

Definition EODHDProvider `{Network} (key : string) : IETFDataProvider :=
  let this_name := "EODHD" in
  {| name := this_name;
     config := Some
       {| configName := this_name; apiKey := key;
          baseUrl := "https://eodhd.com/api";
          rateLimit := {| requestsPerMinute := 20; requestsPerDay := 1000 |};
          endpoints :=
            [("quote", "/real-time/{symbol}"); ("metadata", "/fundamentals/{symbol}");
             ("holdings", "/fundamentals/{symbol}"); ("historical", "/eod/{symbol}");
             ("search", "/search/{query}"); ("fundamentals", "/fundamentals/{symbol}")] |};
     getQuote symbol :=
       symbolRequest this_name "Failed to fetch quote" symbol (fetchQuote eodhd key symbol);
     getMetadata symbol :=
       symbolRequest this_name "Failed to fetch metadata" symbol
         (fetchMetadata eodhd key symbol);
     getHoldings symbol :=
       symbolRequest this_name "Failed to fetch holdings" symbol
         (fetchHoldings eodhd key symbol);
     getSectorAllocation symbol :=
       symbolRequest this_name "Failed to fetch sector allocation" symbol
         (fetchSectorAllocation eodhd key symbol);
     getCountryAllocation symbol :=
       symbolRequest this_name "Failed to fetch country allocation" symbol
         (fetchCountryAllocation eodhd key symbol);
     getPerformance symbol periods :=
       notAvailable this_name "Performance data calculation not implemented for EODHD";
     getHistoricalData symbol interval from to :=
       symbolRequest this_name "Failed to fetch historical data" symbol
         (fetchHistoricalData eodhd key symbol interval from to);
     search query limit :=
       searchRequest this_name query (fetchSearch eodhd key query limit) |}.

Definition FMPProvider `{Network} (key : string) : IETFDataProvider :=
  let this_name := "Financial Modeling Prep" in
  {| name := this_name;
     config := Some
       {| configName := this_name; apiKey := key;
          baseUrl := "https://financialmodelingprep.com/api/v3";
          rateLimit := {| requestsPerMinute := 250; requestsPerDay := 250 |};
          endpoints :=
            [("quote", "/quote/{symbol}"); ("metadata", "/profile/{symbol}");
             ("holdings", "/etf-holder/{symbol}");
             ("historical", "/historical-price-full/{symbol}"); ("search", "/search");
             ("etfSector", "/etf-sector-weightings/{symbol}");
             ("etfCountry", "/etf-country-weightings/{symbol}")] |};
     getQuote symbol :=
       symbolRequest this_name "Failed to fetch quote" symbol (fetchQuote fmp key symbol);
     getMetadata symbol :=
       symbolRequest this_name "Failed to fetch metadata" symbol
         (fetchMetadata fmp key symbol);
     getHoldings symbol :=
       symbolRequest this_name "Failed to fetch holdings" symbol
         (fetchHoldings fmp key symbol);
     getSectorAllocation symbol :=
       symbolRequest this_name "Failed to fetch sector allocation" symbol
         (fetchSectorAllocation fmp key symbol);
     getCountryAllocation symbol :=
       symbolRequest this_name "Failed to fetch country allocation" symbol
         (fetchCountryAllocation fmp key symbol);
     getPerformance symbol periods :=
       notAvailable this_name "Performance data calculation not implemented for FMP";
     getHistoricalData symbol interval from to :=
       symbolRequest this_name "Failed to fetch historical data" symbol
         (fetchHistoricalData fmp key symbol interval from to);
     search query limit :=
       searchRequest this_name query (fetchSearch fmp key query limit) |}.

Definition AlphaVantageProvider `{Network} (key : string) : IETFDataProvider :=
  let this_name := "Alpha Vantage" in
  {| name := this_name;
     config := Some
       {| configName := this_name; apiKey := key;
          baseUrl := "https://www.alphavantage.co/query";
          rateLimit := {| requestsPerMinute := 5; requestsPerDay := 500 |};
          endpoints :=
            [("quote", "?function=GLOBAL_QUOTE"); ("metadata", "?function=OVERVIEW");
             ("holdings", ""); ("historical", "?function=TIME_SERIES_DAILY");
             ("search", "?function=SYMBOL_SEARCH")] |};
     getQuote symbol :=
       symbolRequest this_name "Failed to fetch quote" symbol
         (fetchQuote alpha_vantage key symbol);
     getMetadata symbol :=
       symbolRequest this_name "Failed to fetch metadata" symbol
         (fetchMetadata alpha_vantage key symbol);
     getHoldings symbol :=
       notAvailable this_name "Holdings data not available in Alpha Vantage";
     getSectorAllocation symbol :=
       notAvailable this_name "Sector allocation data not available in Alpha Vantage";
     getCountryAllocation symbol :=
       notAvailable this_name "Country allocation data not available in Alpha Vantage";
     getPerformance symbol periods :=
       notAvailable this_name
         "Performance data calculation not implemented for Alpha Vantage";
     getHistoricalData symbol interval from to :=
       symbolRequest this_name "Failed to fetch historical data" symbol
         (fetchHistoricalData alpha_vantage key symbol interval from to);
     search query limit :=
       searchRequest this_name query (fetchSearch alpha_vantage key query limit) |}.

(** [new XProvider(key)] for the class registered under a given name. *)
Definition construct `{Network} (n : ProviderName) (key : string) : IETFDataProvider :=
  match n with
  | polygon => PolygonProvider key
  | finnhub => FinnhubProvider key
  | eodhd => EODHDProvider key
  | fmp => FMPProvider key
  | alpha_vantage => AlphaVantageProvider key
  end.

(** ** The aggregator ([ETFProviderFactory], [provider-factory.ts]) *)

Record ETFProviderFactory `{Network} := {
  providers : gmap ProviderName IETFDataProvider;
  providerPriority : list ProviderName;
  healthStatus : gmap ProviderName bool;
}.

Record ProviderInfo := {
  info_name : string;
  info_capabilities : ProviderCapabilities;
  info_rateLimit : RateLimit;
  info_isHealthy : bool;
}.

(** State of one run of the loop in [executeWithFallback]: the local
    [errors], the health map, the world, and (ghost) the calls made so
    far with the way each one settled. *)
Record Chain `{Network} (T : Type) := {
  errors : list string;
  health : gmap ProviderName bool;
  world : World;
  attempts : list (ProviderName * Settled T);
}.
Arguments errors {_ _ T} _.
Arguments health {_ _ T} _.
Arguments world {_ _ T} _.
Arguments attempts {_ _ T} _.

(** What a call of a fallback operation leaves behind. *)
Record Outcome `{Network} (T : Type) := {
  response : ProviderResponse T;
  factory : ETFProviderFactory;
  world_after : World;
  calls : list (ProviderName * Settled T);
}.
Arguments response {_ _ T} _.
Arguments factory {_ _ T} _.
Arguments world_after {_ _ T} _.
Arguments calls {_ _ T} _.

(** The eight data operations, each with the type of what it yields. *)
Inductive Operation `{Entities} : Type -> Type :=
  | OpQuote (symbol : string) : Operation ETFQuote
  | OpMetadata (symbol : string) : Operation ETFMetadata
  | OpHoldings (symbol : string) : Operation (list ETFHolding)
  | OpSectorAllocation (symbol : string) : Operation (list ETFSectorAllocation)
  | OpCountryAllocation (symbol : string) : Operation (list ETFCountryAllocation)
  | OpPerformance (symbol : string) (periods : list string)
      : Operation (list ETFPerformance)
  | OpHistoricalData (symbol interval : string) (from to : Date)
      : Operation ETFHistoricalData
  | OpSearch (query : string) (limit : option Z) : Operation (list SearchResult).

(** The capability key each factory method hands to [executeWithFallback]. *)
Definition keyOf `{Entities} {T} (op : Operation T) : CapabilityKey :=
  match op with
  | OpQuote _ => key_quote
  | OpMetadata _ => key_metadata
  | OpHoldings _ => key_holdings
  | OpSectorAllocation _ => key_sectorAllocation
  | OpCountryAllocation _ => key_countryAllocation
  | OpPerformance _ _ => key_performance
  | OpHistoricalData _ _ _ _ => key_historicalData
  | OpSearch _ _ => key_search
  end.

(** The lambda each factory method hands to [executeWithFallback]; also
    what a direct call of the operation on one provider is. *)
Definition invoke `{Network} {T} (op : Operation T) (p : IETFDataProvider) : Promise T :=
  match op in Operation T return Promise T with
  | OpQuote symbol => getQuote p symbol
  | OpMetadata symbol => getMetadata p symbol
  | OpHoldings symbol => getHoldings p symbol
  | OpSectorAllocation symbol => getSectorAllocation p symbol
  | OpCountryAllocation symbol => getCountryAllocation p symbol
  | OpPerformance symbol periods => getPerformance p symbol periods
  | OpHistoricalData symbol interval from to =>
      getHistoricalData p symbol interval from to
  | OpSearch query limit => search p query (default 10 limit)
  end.

(** The requests a client can make of a factory (its public methods). *)
Inductive Request `{Network} :=
  | SetProviderPriority (priority : list ProviderName)
  | GetProviderInfo
  | Fetch {T : Type} (op : Operation T)
  | HealthCheck
  | GetProvider (n : ProviderName)
  | HasProviders
  | GetAvailableProviders.

Module Factory.
Section Methods.
Context `{Network}.

(** A credential counts when it is a non-empty string. *)
Definition present (credential : option string) : option string :=
  match credential with
  | Some key => if decide (key = "") then None else Some key
  | None => None
  end.

(** [this.providers.set(n, p); this.healthStatus.set(n, true);] *)
Definition register (n : ProviderName) (p : IETFDataProvider)
    (this : ETFProviderFactory) : ETFProviderFactory :=
  {| providers := <[n := p]> (providers this);
     providerPriority := providerPriority this;
     healthStatus := <[n := true]> (healthStatus this) |}.

Definition initializeProviders (credentials : ProviderCredentials)
    (this : ETFProviderFactory) : ETFProviderFactory :=
  let this :=
    match present (cred_polygon credentials) with
    | Some key => register polygon (PolygonProvider key) this
    | None => this
    end in
  let this :=
    match present (cred_finnhub credentials) with
    | Some key => register finnhub (FinnhubProvider key) this
    | None => this
    end in
  let this :=
    match present (cred_eodhd credentials) with
    | Some key => register eodhd (EODHDProvider key) this
    | None => this
    end in
  let this :=
    match present (cred_fmp credentials) with
    | Some key => register fmp (FMPProvider key) this
    | None => this
    end in
  match present (cred_alphaVantage credentials) with
  | Some key => register alpha_vantage (AlphaVantageProvider key) this
  | None => this
  end.

(** [this.providers.has(name)] *)
Definition has (this : ETFProviderFactory) (n : ProviderName) : Prop :=
  is_Some (providers this !! n).

Definition setDefaultPriority (this : ETFProviderFactory) : ETFProviderFactory :=
  {| providers := providers this;
     providerPriority :=
       filter (has this) [polygon; eodhd; fmp; finnhub; alpha_vantage];
     healthStatus := healthStatus this |}.

(** [new ETFProviderFactory(credentials)] *)
Definition new (credentials : ProviderCredentials) : ETFProviderFactory :=
  setDefaultPriority
    (initializeProviders credentials
       {| providers := ∅; providerPriority := []; healthStatus := ∅ |}).

Definition setProviderPriority (this : ETFProviderFactory)
    (priority : list ProviderName) : ETFProviderFactory :=
  {| providers := providers this;
     providerPriority := filter (has this) priority;
     healthStatus := healthStatus this |}.

(** The order in which [initializeProviders] fills the registry.  A
    JavaScript [Map] is listed in insertion order, and nothing else
    inserts into this one. *)
Definition insertionOrder : list ProviderName :=
  [polygon; finnhub; eodhd; fmp; alpha_vantage].

(** [this.providers.keys()] *)
Definition keys (this : ETFProviderFactory) : list ProviderName :=
  filter (has this) insertionOrder.

(** [getProviderInfo]: one entry per registered provider.  Reading
    [provider.config.rateLimit] on an object without [config] throws a
    [TypeError]; that is [None]. *)
Definition getProviderInfo (this : ETFProviderFactory) : option (list ProviderInfo) :=
  mapM (fun n =>
          p ← providers this !! n;
          c ← config p;
          Some {| info_name := name p;
                  info_capabilities := getProviderCapabilities n;
                  info_rateLimit := rateLimit c;
                  info_isHealthy := default false (healthStatus this !! n) |})
       (keys this).

(** [`${providerName}: ${result.error}`] and [`${providerName}: ${error}`] *)
Definition describe {T} (providerName : ProviderName) (settled : Settled T) : string :=
  ProviderName_toString providerName +:+ ": " +:+
  match settled with
  | Resolved result => template (error result)
  | Rejected thrown => Error_toString thrown
  end.

(** The [for] loop of [executeWithFallback] over the rest of the
    priority list; [Some result] is the early [return result]. *)
Fixpoint fallbackLoop {T} (registry : gmap ProviderName IETFDataProvider)
    (method : IETFDataProvider -> Promise T) (capability : CapabilityKey)
    (rest : list ProviderName) (st : Chain T) : option (ProviderResponse T) * Chain T :=
  match rest with
  | [] => (None, st)
  | providerName :: rest =>
      match registry !! providerName with
      | None => fallbackLoop registry method capability rest st
      | Some p =>
          if negb (default false (health st !! providerName))
          then fallbackLoop registry method capability rest st
          else if negb (capabilityAt (getProviderCapabilities providerName) capability)
          then fallbackLoop registry method capability rest st
          else
            match method p (world st) with
            | (Resolved result, w) =>
                let tried := attempts st ++ [(providerName, Resolved result)] in
                if success result
                then (Some result,
                      {| errors := errors st; health := health st; world := w;
                         attempts := tried |})
                else fallbackLoop registry method capability rest
                       {| errors :=
                            errors st ++ [describe providerName (Resolved result)];
                          health := health st; world := w; attempts := tried |}
            | (Rejected thrown, w) =>
                fallbackLoop registry method capability rest
                  {| errors :=
                       errors st ++ [describe (T:=T) providerName (Rejected thrown)];
                     health := <[providerName := false]> (health st);
                     world := w;
                     attempts := attempts st ++ [(providerName, Rejected thrown)] |}
            end
      end
  end.

(** The object returned after the loop. *)
Definition allProvidersFailed {T} (errs : list string) (now : Z) : ProviderResponse T :=
  {| success := false;
     error := Some ("All providers failed. Errors: " +:+ join "; " errs);
     data := Null;
     provider := "factory";
     timestamp := now |}.

Definition executeWithFallback {T} (this : ETFProviderFactory)
    (method : IETFDataProvider -> Promise T) (capability : CapabilityKey)
    (w : World) : Outcome T :=
  let '(returned, st) :=
    fallbackLoop (providers this) method capability (providerPriority this)
      {| errors := []; health := healthStatus this; world := w; attempts := [] |} in
  {| response :=
       match returned with
       | Some result => result
       | None => allProvidersFailed (errors st) (Date_now (world st))
       end;
     factory :=
       {| providers := providers this;
          providerPriority := providerPriority this;
          healthStatus := health st |};
     world_after := world st;
     calls := attempts st |}.

Definition getQuote (this : ETFProviderFactory) (symbol : string) :=
  executeWithFallback this (fun p => getQuote p symbol) key_quote.

Definition getMetadata (this : ETFProviderFactory) (symbol : string) :=
  executeWithFallback this (fun p => getMetadata p symbol) key_metadata.

Definition getHoldings (this : ETFProviderFactory) (symbol : string) :=
  executeWithFallback this (fun p => getHoldings p symbol) key_holdings.

Definition getSectorAllocation (this : ETFProviderFactory) (symbol : string) :=
  executeWithFallback this (fun p => getSectorAllocation p symbol) key_sectorAllocation.

Definition getCountryAllocation (this : ETFProviderFactory) (symbol : string) :=
  executeWithFallback this (fun p => getCountryAllocation p symbol) key_countryAllocation.

Definition getPerformance (this : ETFProviderFactory) (symbol : string)
    (periods : list string) :=
  executeWithFallback this (fun p => getPerformance p symbol periods) key_performance.

Definition getHistoricalData (this : ETFProviderFactory) (symbol interval : string)
    (from to : Date) :=
  executeWithFallback this (fun p => getHistoricalData p symbol interval from to)
    key_historicalData.

Definition search (this : ETFProviderFactory) (query : string) (limit : option Z) :=
  executeWithFallback this (fun p => search p query (default 10 limit)) key_search.

(** [healthCheck]: one entry per registered provider, healthy when
    [provider.config] is truthy; nothing is asked of the provider.  The
    [catch] branch of the source guards a property read on an object of
    the registry, which does not throw, so only the [try] branch appears.
    The entries have distinct names, so the order in which they are
    written does not matter. *)
Definition healthResults (this : ETFProviderFactory) : list (ProviderName * bool) :=
  (fun '(n, p) => (n, match config p with Some _ => true | None => false end))
  <$> map_to_list (providers this).

Definition healthCheck (this : ETFProviderFactory)
  : gmap ProviderName bool * ETFProviderFactory :=
  let results := healthResults this in
  (list_to_map results,
   {| providers := providers this;
      providerPriority := providerPriority this;
      healthStatus :=
        foldl (fun hs '(n, isHealthy) => <[n := isHealthy]> hs) (healthStatus this) results |}).

Definition getProvider (this : ETFProviderFactory) (n : ProviderName)
  : option IETFDataProvider := providers this !! n.

Definition hasProviders (this : ETFProviderFactory) : bool :=
  bool_decide (0 < size (providers this))%nat.

Definition getAvailableProviders (this : ETFProviderFactory) : list ProviderName :=
  keys this.

(** ** A client's view: sequences of requests *)

(** The names a fallback call invoked, in the order of the calls. *)
Definition invoked {T} (o : Outcome T) : list ProviderName := (calls o).*1.

Definition observe {T} (o : Outcome T) : ETFProviderFactory * World * list ProviderName :=
  (factory o, world_after o, invoked o).

(** The factory method behind an operation. *)
Definition perform {T} (this : ETFProviderFactory) (op : Operation T) : World -> Outcome T :=
  match op in Operation T return World -> Outcome T with
  | OpQuote symbol => getQuote this symbol
  | OpMetadata symbol => getMetadata this symbol
  | OpHoldings symbol => getHoldings this symbol
  | OpSectorAllocation symbol => getSectorAllocation this symbol
  | OpCountryAllocation symbol => getCountryAllocation this symbol
  | OpPerformance symbol periods => getPerformance this symbol periods
  | OpHistoricalData symbol interval from to =>
      getHistoricalData this symbol interval from to
  | OpSearch query limit => search this query limit
  end.

(** One request: the factory and the world after it, and the providers
    that were invoked for it. *)
Definition step (this : ETFProviderFactory) (w : World) (r : Request)
  : ETFProviderFactory * World * list ProviderName :=
  match r with
  | SetProviderPriority priority => (setProviderPriority this priority, w, [])
  | Fetch op => observe (perform this op w)
  | HealthCheck => ((healthCheck this).2, w, [])
  | GetProviderInfo | GetProvider _ | HasProviders | GetAvailableProviders => (this, w, [])
  end.

Fixpoint run (this : ETFProviderFactory) (w : World) (rs : list Request)
  : ETFProviderFactory * World * list ProviderName :=
  match rs with
  | [] => (this, w, [])
  | r :: rs =>
      let '(this1, w1, names1) := step this w r in
      let '(this2, w2, names2) := run this1 w1 rs in
      (this2, w2, names1 ++ names2)
  end.

End Methods.
End Factory.

(** ** Vocabulary of the properties *)

(** A name passes the three tests at the head of the loop body. *)
Definition eligible `{Network} (registry : gmap ProviderName IETFDataProvider)
    (healthMap : gmap ProviderName bool) (capability : CapabilityKey)
    (n : ProviderName) : Prop :=
  is_Some (registry !! n)
  ∧ healthMap !! n = Some true
  ∧ capabilityAt (getProviderCapabilities n) capability = true.

#[global] Instance eligible_dec `{Network} registry healthMap capability n :
  Decision (eligible registry healthMap capability n).
Proof. unfold eligible. apply _. Defined.

(** A call that did not end in a result with [success == true]. *)
Definition failed {T} (settled : Settled T) : Prop :=
  match settled with
  | Resolved result => success result = false
  | Rejected _ => True
  end.


(** The symbol an operation validates in its network-backed form, and the
    text its [catch] clause puts in front of the exception. *)
Definition symbolOf `{Entities} {T} (op : Operation T) : option string :=
  match op with
  | OpQuote symbol | OpMetadata symbol | OpHoldings symbol
  | OpSectorAllocation symbol | OpCountryAllocation symbol
  | OpHistoricalData symbol _ _ _ => Some symbol
  | OpPerformance _ _ | OpSearch _ _ => None
  end.

Definition failurePrefix `{Entities} {T} (op : Operation T) : string :=
  match op with
  | OpQuote _ => "Failed to fetch quote"
  | OpMetadata _ => "Failed to fetch metadata"
  | OpHoldings _ => "Failed to fetch holdings"
  | OpSectorAllocation _ => "Failed to fetch sector allocation"
  | OpCountryAllocation _ => "Failed to fetch country allocation"
  | OpPerformance _ _ => "Failed to fetch performance"
  | OpHistoricalData _ _ _ _ => "Failed to fetch historical data"
  | OpSearch _ _ => "Failed to search"
  end.

(** The credential [initializeProviders] reads for a name. *)
Definition credentialFor (credentials : ProviderCredentials) (n : ProviderName)
  : option string :=
  match n with
  | polygon => cred_polygon credentials
  | finnhub => cred_finnhub credentials
  | eodhd => cred_eodhd credentials
  | fmp => cred_fmp credentials
  | alpha_vantage => cred_alphaVantage credentials
  end.

(** ** Fixtures: a small network and a test double *)

Module Fixtures.

Definition entities : Entities :=
  {| ETFQuote := string; ETFMetadata := string; ETFHolding := string;
     ETFSectorAllocation := string; ETFCountryAllocation := string;
     ETFPerformance := string; ETFHistoricalData := string;
     SearchResult := string; Date := Z |}.

(** The world counts the requests sent; the clock advances with it.
    Polygon's quote endpoint answers with an empty result set, every
    other endpoint answers. *)
Definition network : @Network entities :=
  @Build_Network entities
    (* World *) nat
    (* Date_now *) (fun w => 1700000000000 + Z.of_nat w)
    (* fetchQuote *)
    (fun n key symbol w =>
       (match n with polygon => NoData "No quote data found" | _ => Found symbol end,
        S w))
    (* fetchMetadata *) (fun n key symbol w => (Found symbol, S w))
    (* fetchHoldings *) (fun n key symbol w => (Found [symbol], S w))
    (* fetchSectorAllocation *) (fun n key symbol w => (Found [], S w))
    (* fetchCountryAllocation *) (fun n key symbol w => (Found [], S w))
    (* fetchHistoricalData *)
    (fun n key symbol interval from to w =>
       (Failed (Error "HTTP 500: Internal Server Error - "), S w))
    (* fetchSearch *) (fun n key query limit w => (Found [query], S w)).

#[local] Existing Instances entities network.

(** A provider whose calls all reject, the way a mocked provider does in
    a test of the fallback. *)
Definition broken : @IETFDataProvider entities network :=
  let timeout {T} : @Promise entities network T :=
    fun w => (Rejected (Error "timeout"), S w) in
  {| name := "Polygon.io"; config := None;
     getQuote _ := timeout; getMetadata _ := timeout; getHoldings _ := timeout;
     getSectorAllocation _ := timeout; getCountryAllocation _ := timeout;
     getPerformance _ _ := timeout; getHistoricalData _ _ _ _ := timeout;
     search _ _ := timeout |}.

(** A symbol a form can send: a space, a no-break space (U+00A0) and an
    ideographic space (U+3000). *)
Definition spaces : string :=
  String " " (String "194" (String "160"
    (String "227" (String "128" (String "128" EmptyString))))).

Definition noCredentials : ProviderCredentials :=
  {| cred_polygon := None; cred_finnhub := None; cred_eodhd := None;
     cred_fmp := None; cred_alphaVantage := None |}.

Definition twoKeys : ProviderCredentials :=
  {| cred_polygon := Some "pk"; cred_finnhub := None; cred_eodhd := Some "ek";
     cred_fmp := None; cred_alphaVantage := None |}.

(** Registry {polygon, eodhd}, both healthy, polygon's provider broken. *)
Definition scenario1 : @ETFProviderFactory entities network :=
  {| providers := <[polygon := broken]> (providers (Factory.new twoKeys));
     providerPriority := [polygon; eodhd];
     healthStatus := healthStatus (Factory.new twoKeys) |}.

End Fixtures.

(** * The rest of the aggregation layer and its callers

    [formatSymbol] and [formatSymbolWithExchange], the module-level
    default factory of [src/lib/api/index.ts], and the route handlers that
    call it ([app/api/etf/countries], [app/api/etf/performance] and the
    metadata handler).  [toUpperCase] below is that of JavaScript on ASCII
    text: it moves the letters a to z and leaves every other byte alone,
    where JavaScript also maps the letters outside ASCII.  The properties
    that depend on it are stated for ASCII strings. *)

(** Every character is ASCII (below 128). *)
Fixpoint asciiOnly (s : string) : bool :=
  match s with
  | String c rest => (nat_of_ascii c <? 128)%nat && asciiOnly rest
  | EmptyString => true
  end.

Definition toUpperCaseChar (c : ascii) : ascii :=
  let n := nat_of_ascii c in
  if ((97 <=? n) && (n <=? 122))%nat then ascii_of_nat (n - 32) else c.

(** [String.prototype.toUpperCase], on ASCII text *)
Fixpoint toUpperCase (s : string) : string :=
  match s with
  | String c rest => String (toUpperCaseChar c) (toUpperCase rest)
  | EmptyString => EmptyString
  end.

(** [s.includes(c)] for a one-character [c] *)
Fixpoint includesChar (c : ascii) (s : string) : bool :=
  match s with
  | String d rest => Ascii.eqb d c || includesChar c rest
  | EmptyString => false
  end.

(** [s.split(c)] for a one-character [c] *)
Fixpoint split (sep : ascii) (s : string) : list string :=
  match s with
  | String c rest =>
      if Ascii.eqb c sep then EmptyString :: split sep rest
      else match split sep rest with
           | first :: others => String c first :: others
           | [] => [String c EmptyString]
           end
  | EmptyString => [EmptyString]
  end.

(** [BaseETFProvider.formatSymbol] *)
Definition formatSymbol (symbol : string) : string := trim (toUpperCase symbol).

(** [EODHDProvider.formatSymbolWithExchange] *)
Definition formatSymbolWithExchange (symbol : string) : string :=
  if includesChar "." symbol then symbol else symbol +:+ ".US".

(** ** The default factory ([src/lib/api/index.ts]) *)

(** The five variables read from [process.env]. *)
Record Environment := {
  POLYGON_API_KEY : option string;
  FINNHUB_API_KEY : option string;
  EODHD_API_KEY : option string;
  FMP_API_KEY : option string;
  ALPHA_VANTAGE_API_KEY : option string;
}.

Module Api.
Section Index.
Context `{Network}.

(** [createETFProviderFactory]: the entries that are [undefined] are
    dropped from the credentials object, which is to leave their fields
    unset. *)
Definition createETFProviderFactory (env : Environment) : ETFProviderFactory :=
  Factory.new
    {| cred_polygon := POLYGON_API_KEY env;
       cred_finnhub := FINNHUB_API_KEY env;
       cred_eodhd := EODHD_API_KEY env;
       cred_fmp := FMP_API_KEY env;
       cred_alphaVantage := ALPHA_VANTAGE_API_KEY env |}.

(** [getDefaultETFProviderFactory]: the module variable [defaultFactory]
    is passed in and handed back; the factory returned is that object. *)
Definition getDefaultETFProviderFactory (env : Environment)
    (defaultFactory : option ETFProviderFactory)
  : ETFProviderFactory * option ETFProviderFactory :=
  match defaultFactory with
  | Some existing => (existing, Some existing)
  | None =>
      let created := createETFProviderFactory env in
      (created, Some created)
  end.

Definition resetDefaultETFProviderFactory (defaultFactory : option ETFProviderFactory)
  : option ETFProviderFactory := None.

End Index.
End Api.

(** ** Route handlers ([src/app/api/etf/*/route.ts]) *)

(** The JSON of an answer: [{ error }] (a key whose value is [undefined]
    is left out), or the success object; [symbol] is the echoed symbol of
    the routes that echo it. *)
Inductive Json (T : Type) : Type :=
  | ErrorJson (err : option string)
  | DataJson (payload : Data T) (from : string) (at_time : Z) (symbol : option string).
Arguments ErrorJson {T} err.
Arguments DataJson {T} payload from at_time symbol.

(** An answer: status, JSON and the headers the handler sets itself. *)
Record HttpResponse (T : Type) : Type := {
  status : Z;
  json : Json T;
  headers : list (string * string);
}.
Arguments status {T} _.
Arguments json {T} _.
Arguments headers {T} _.

(** The key of the registry a string is, if any ([Map.get] with a string). *)
Definition ProviderName_ofString (s : string) : option ProviderName :=
  if decide (s = "polygon") then Some polygon
  else if decide (s = "finnhub") then Some finnhub
  else if decide (s = "eodhd") then Some eodhd
  else if decide (s = "fmp") then Some fmp
  else if decide (s = "alpha-vantage") then Some alpha_vantage
  else None.

Definition isUpperLetter (c : ascii) : bool :=
  let n := nat_of_ascii c in ((65 <=? n) && (n <=? 90))%nat.

Fixpoint allUpperLetters (s : string) : bool :=
  match s with
  | String c rest => isUpperLetter c && allUpperLetters rest
  | EmptyString => true
  end.

Definition isLetter (c : ascii) : bool :=
  let n := nat_of_ascii c in
  ((65 <=? n) && (n <=? 90) || (97 <=? n) && (n <=? 122))%nat.

Fixpoint allLetters (s : string) : bool :=
  match s with
  | String c rest => isLetter c && allLetters rest
  | EmptyString => true
  end.

(** [/^[A-Z]{1,5}$/.test(s)] *)
Definition matchesSymbolFormat (s : string) : bool :=
  ((1 <=? String.length s) && (String.length s <=? 5))%nat && allUpperLetters s.

(** A query parameter that is present and not the empty string. *)
Definition given (parameter : option string) : option string :=
  match parameter with
  | Some value => if decide (value = "") then None else Some value
  | None => None
  end.

Module Routes.
Section Handlers.
Context `{Network}.

Definition errorResponse {T} (code : Z) (msg : string) : HttpResponse T :=
  {| status := code; json := ErrorJson (Some msg); headers := [] |}.

(** The three [response.headers.set] calls, for a cache duration whose
    decimal and whose double's decimal are given. *)
Definition cacheHeaders (duration doubled : string) : list (string * string) :=
  [("Cache-Control",
    "public, s-maxage=" +:+ duration +:+ ", stale-while-revalidate=" +:+ doubled);
   ("CDN-Cache-Control", "public, s-maxage=" +:+ duration);
   ("Vercel-CDN-Cache-Control", "public, s-maxage=" +:+ duration)].

(** From [if (!result.success)] to the end of the [try] block. *)
Definition answer {T} (result : ProviderResponse T) (echo : option string)
    (okHeaders : list (string * string)) : HttpResponse T :=
  if success result
  then {| status := 200;
          json := DataJson (data result) (provider result) (timestamp result) echo;
          headers := okHeaders |}
  else {| status := 404; json := ErrorJson (error result); headers := [] |}.

(** What the handlers share once the parameters are accepted: fetch the
    default factory, refuse when it has no provider, then either call the
    provider asked for or go through the fallback.  An exception escaping
    the direct call is what the handler's [catch] turns into a 500. *)
Definition dispatch {T} (op : Operation T) (providerParam : option string)
    (echo : option string) (okHeaders : list (string * string))
    (env : Environment) (defaultFactory : option ETFProviderFactory) (w : World)
  : HttpResponse T * option ETFProviderFactory * World :=
  let '(f, defaultFactory) := Api.getDefaultETFProviderFactory env defaultFactory in
  if negb (Factory.hasProviders f)
  then (errorResponse 503 "No data providers configured", defaultFactory, w)
  else
    match given providerParam with
    | Some asked =>
        match ProviderName_ofString asked ≫= Factory.getProvider f with
        | None =>
            (errorResponse 400 ("Provider '" +:+ asked +:+ "' not available"),
             defaultFactory, w)
        | Some specificProvider =>
            match invoke op specificProvider w with
            | (Resolved result, w') => (answer result echo okHeaders, defaultFactory, w')
            | (Rejected _, w') =>
                (errorResponse 500 "Internal server error", defaultFactory, w')
            end
        end
    | None =>
        let o := Factory.perform f op w in
        (answer (response o) echo okHeaders, Some (factory o), world_after o)
    end.

(** [GET] of [app/api/etf/countries/route.ts] *)
Definition countriesGET (symbolParam providerParam : option string)
    (env : Environment) (defaultFactory : option ETFProviderFactory) (w : World)
  : HttpResponse (list ETFCountryAllocation) * option ETFProviderFactory * World :=
  match given symbolParam with
  | None => (errorResponse 400 "Symbol parameter is required", defaultFactory, w)
  | Some symbol =>
      if negb (matchesSymbolFormat (toUpperCase symbol))
      then (errorResponse 400 "Invalid symbol format", defaultFactory, w)
      else dispatch (OpCountryAllocation (toUpperCase symbol)) providerParam
             (Some (toUpperCase symbol)) (cacheHeaders "7200" "14400")
             env defaultFactory w
  end.

(** [GET] of the metadata route *)
Definition metadataGET (symbolParam providerParam : option string)
    (env : Environment) (defaultFactory : option ETFProviderFactory) (w : World)
  : HttpResponse ETFMetadata * option ETFProviderFactory * World :=
  match given symbolParam with
  | None => (errorResponse 400 "Symbol parameter is required", defaultFactory, w)
  | Some symbol =>
      if negb (matchesSymbolFormat (toUpperCase symbol))
      then (errorResponse 400 "Invalid symbol format", defaultFactory, w)
      else dispatch (OpMetadata (toUpperCase symbol)) providerParam
             None (cacheHeaders "3600" "7200") env defaultFactory w
  end.

Definition defaultPeriods : list string :=
  ["1D"; "1W"; "1M"; "3M"; "6M"; "1Y"; "3Y"; "5Y"; "YTD"].

Definition validPeriods : list string :=
  ["1D"; "1W"; "1M"; "3M"; "6M"; "1Y"; "2Y"; "3Y"; "5Y"; "10Y"; "YTD"; "MAX"].

(** The periods a request names: the [periods] parameter cut at the
    commas, each piece trimmed; the default list without the parameter. *)
Definition requestedPeriods (periodsParam : option string) : list string :=
  match given periodsParam with
  | Some listed => trim <$> split "," listed
  | None => defaultPeriods
  end.

(** [GET] of [app/api/etf/performance/route.ts] *)
Definition performanceGET (symbolParam providerParam periodsParam : option string)
    (env : Environment) (defaultFactory : option ETFProviderFactory) (w : World)
  : HttpResponse (list ETFPerformance) * option ETFProviderFactory * World :=
  match given symbolParam with
  | None => (errorResponse 400 "Symbol parameter is required", defaultFactory, w)
  | Some symbol =>
      if negb (matchesSymbolFormat (toUpperCase symbol))
      then (errorResponse 400 "Invalid symbol format", defaultFactory, w)
      else
        let periods := requestedPeriods periodsParam in
        let invalidPeriods :=
          filter (fun p => toUpperCase p ∉ validPeriods) periods in
        if bool_decide (0 < length invalidPeriods)%nat
        then (errorResponse 400
                ("Invalid periods: " +:+ join ", " invalidPeriods
                 +:+ ". Valid periods: " +:+ join ", " validPeriods),
              defaultFactory, w)
        else dispatch (OpPerformance (toUpperCase symbol) (toUpperCase <$> periods))
               providerParam (Some (toUpperCase symbol)) (cacheHeaders "3600" "7200")
               env defaultFactory w
  end.

End Handlers.
End Routes.

(** The module variable holds nothing, or a factory whose registry is the
    one some credentials give: it is only ever assigned by
    [getDefaultETFProviderFactory]. *)
Definition fromConstructor `{Network} (defaultFactory : option ETFProviderFactory) : Prop :=
  match defaultFactory with
  | Some f => ∃ credentials, providers f = providers (Factory.new credentials)
  | None => True
  end.

(** More fixtures: environments. *)
Module Samples.

Definition noKeys : Environment :=
  {| POLYGON_API_KEY := None; FINNHUB_API_KEY := None; EODHD_API_KEY := None;
     FMP_API_KEY := None; ALPHA_VANTAGE_API_KEY := None |}.

(** An empty variable counts for nothing; polygon and eodhd are set. *)
Definition someKeys : Environment :=
  {| POLYGON_API_KEY := Some "pk"; FINNHUB_API_KEY := Some "";
     EODHD_API_KEY := Some "ek"; FMP_API_KEY := None;
     ALPHA_VANTAGE_API_KEY := None |}.

End Samples.

(** * Properties *)

(** ** The loop, one candidate at a time *)

Section FallbackLoop.
Context `{Network} {T : Type}.
Variable registry : gmap ProviderName IETFDataProvider.
Variable method : IETFDataProvider -> Promise T.
Variable capability : CapabilityKey.

Local Notation "'loop'" := (Factory.fallbackLoop registry method capability).

Lemma healthy_iff (healthMap : gmap ProviderName bool) (n : ProviderName) :
  default false (healthMap !! n) = true ↔ healthMap !! n = Some true.
Proof. destruct (healthMap !! n) as [[]|]; naive_solver. Qed.

(** A name failing one of the three tests is passed over. *)
Lemma loop_skip n rest (st : Chain T) :
  ¬ eligible registry (health st) capability n →
  loop (n :: rest) st = loop rest st.
Proof.
  intros Hno. cbn [Factory.fallbackLoop].
  destruct (registry !! n) as [p|] eqn:Hp; [|done].
  destruct (default false (health st !! n)) eqn:Hh; [|done].
  destruct (capabilityAt (getProviderCapabilities n) capability) eqn:Hc; [|done].
  exfalso. apply Hno. split_and!; [by eexists | by apply healthy_iff | done].
Qed.

(** An eligible name is called, and the loop goes by how the call settles. *)
Lemma loop_call n p rest (st : Chain T) :
  registry !! n = Some p →
  eligible registry (health st) capability n →
  loop (n :: rest) st =
    match method p (world st) with
    | (Resolved result, w) =>
        if success result
        then (Some result,
              {| errors := errors st; health := health st; world := w;
                 attempts := attempts st ++ [(n, Resolved result)] |})
        else loop rest
               {| errors := errors st ++ [Factory.describe n (Resolved result)];
                  health := health st; world := w;
                  attempts := attempts st ++ [(n, Resolved result)] |}
    | (Rejected thrown, w) =>
        loop rest
          {| errors := errors st ++ [Factory.describe (T:=T) n (Rejected thrown)];
             health := <[n := false]> (health st); world := w;
             attempts := attempts st ++ [(n, Rejected thrown)] |}
    end.
Proof.
  intros Hp (_ & Hh & Hc). cbn [Factory.fallbackLoop].
  rewrite Hp, Hh, Hc. cbn. by destruct (method p (world st)) as [[r|e] w].
Qed.

(** Induction along the run of the loop. *)
Lemma loop_ind
    (P : list ProviderName → Chain T → option (ProviderResponse T) * Chain T → Prop) :
  (∀ st, P [] st (None, st)) →
  (∀ n rest st,
     ¬ eligible registry (health st) capability n →
     P rest st (loop rest st) → P (n :: rest) st (loop rest st)) →
  (∀ n p rest st result w,
     registry !! n = Some p → eligible registry (health st) capability n →
     method p (world st) = (Resolved result, w) → success result = true →
     P (n :: rest) st
       (Some result,
        {| errors := errors st; health := health st; world := w;
           attempts := attempts st ++ [(n, Resolved result)] |})) →
  (∀ n p rest st result w,
     registry !! n = Some p → eligible registry (health st) capability n →
     method p (world st) = (Resolved result, w) → success result = false →
     let st' := {| errors := errors st ++ [Factory.describe n (Resolved result)];
                   health := health st; world := w;
                   attempts := attempts st ++ [(n, Resolved result)] |} in
     P rest st' (loop rest st') → P (n :: rest) st (loop rest st')) →
  (∀ n p rest st thrown w,
     registry !! n = Some p → eligible registry (health st) capability n →
     method p (world st) = (Rejected thrown, w) →
     let st' := {| errors := errors st ++ [Factory.describe (T:=T) n (Rejected thrown)];
                   health := <[n := false]> (health st); world := w;
                   attempts := attempts st ++ [(n, Rejected thrown)] |} in
     P rest st' (loop rest st') → P (n :: rest) st (loop rest st')) →
  ∀ rest st, P rest st (loop rest st).
Proof.
  intros Hnil Hskip Hwin Hfail Hthrow rest.
  induction rest as [|n rest IH]; intros st; [apply Hnil|].
  destruct (decide (eligible registry (health st) capability n)) as [He|He].
  - destruct (He) as ([p Hp] & _ & _). rewrite (loop_call n p rest st Hp He).
    destruct (method p (world st)) as [[result|thrown] w] eqn:Hm.
    + destruct (success result) eqn:Hs.
      * by eapply Hwin.
      * eapply Hfail; eauto.
    + eapply Hthrow; eauto.
  - rewrite loop_skip by done. by apply Hskip.
Qed.

Lemma filter_sublist_mono {A} (P Q : A → Prop)
    `{!∀ x, Decision (P x)} `{!∀ x, Decision (Q x)} (l : list A) :
  (∀ x, P x → Q x) → filter P l `sublist_of` filter Q l.
Proof.
  intros HPQ. induction l as [|x l IH]; [done|].
  rewrite !filter_cons.
  destruct (decide (P x)) as [HP|HP], (decide (Q x)) as [HQ|HQ].
  - by constructor.
  - by destruct HQ; auto.
  - by constructor.
  - done.
Qed.

Lemma eligible_after_throw n m (healthMap : gmap ProviderName bool) :
  eligible registry (<[n := false]> healthMap) capability m →
  eligible registry healthMap capability m.
Proof.
  intros (Hp & Hh & Hc). split_and!; [done| |done].
  destruct (decide (n = m)) as [->|Hne].
  - by rewrite lookup_insert_eq in Hh.
  - by rewrite lookup_insert_ne in Hh.
Qed.

(** Everything the later proofs need to know about one run of the loop,
    in terms of the calls [more] it adds to the trace. *)
Ltac chain_simpl :=
  cbn [attempts errors health world fst snd fmap list_fmap].

Lemma loop_trace rest (st : Chain T) :
  ∃ more,
    attempts (loop rest st).2 = attempts st ++ more
    ∧ more.*1 `sublist_of` filter (eligible registry (health st) capability) rest
    ∧ match (loop rest st).1 with
      | Some result =>
          ∃ n earlier,
            more = earlier ++ [(n, Resolved result)]
            ∧ success result = true
            ∧ Forall (fun a => failed a.2) earlier
            ∧ errors (loop rest st).2
              = errors st ++ ((fun a => Factory.describe a.1 a.2) <$> earlier)
      | None =>
          Forall (fun a => failed a.2) more
          ∧ errors (loop rest st).2
            = errors st ++ ((fun a => Factory.describe a.1 a.2) <$> more)
          ∧ ∀ n, n ∈ rest → eligible registry (health st) capability n → n ∈ more.*1
      end
    ∧ (∀ n thrown, (n, Rejected thrown) ∈ more → health (loop rest st).2 !! n = Some false)
    ∧ (∀ n, (∀ thrown, (n, Rejected thrown) ∉ more) →
            health (loop rest st).2 !! n = health st !! n)
    ∧ (∀ n, health st !! n = Some false → health (loop rest st).2 !! n = Some false)
    ∧ (more = [] → world (loop rest st).2 = world st).
Proof.
  revert rest st.
  apply (loop_ind (fun rest st out =>
    ∃ more,
      attempts out.2 = attempts st ++ more
      ∧ more.*1 `sublist_of` filter (eligible registry (health st) capability) rest
      ∧ match out.1 with
        | Some result =>
            ∃ n earlier,
              more = earlier ++ [(n, Resolved result)]
              ∧ success result = true
              ∧ Forall (fun a => failed a.2) earlier
              ∧ errors out.2 = errors st ++ ((fun a => Factory.describe a.1 a.2) <$> earlier)
        | None =>
            Forall (fun a => failed a.2) more
            ∧ errors out.2 = errors st ++ ((fun a => Factory.describe a.1 a.2) <$> more)
            ∧ ∀ n, n ∈ rest → eligible registry (health st) capability n → n ∈ more.*1
        end
      ∧ (∀ n thrown, (n, Rejected thrown) ∈ more → health out.2 !! n = Some false)
      ∧ (∀ n, (∀ thrown, (n, Rejected thrown) ∉ more) → health out.2 !! n = health st !! n)
      ∧ (∀ n, health st !! n = Some false → health out.2 !! n = Some false)
      ∧ (more = [] → world out.2 = world st))).
  - (* end of the list *)
    intros st. exists []. chain_simpl. rewrite !app_nil_r.
    split_and!; try done.
    intros n thrown Hn. by apply elem_of_nil in Hn.
  - (* a name passed over *)
    intros n rest st Hno (more & Hatt & Hsub & Hret & Hbad & Hsame & Hmono & Hw).
    exists more. split_and!; try done.
    + by rewrite filter_cons_False.
    + destruct (loop rest st).1; [done|].
      destruct Hret as (Hall & Herr & Hcomplete). split_and!; [done..|].
      intros m [->|Hm]%elem_of_cons He; [done | by apply Hcomplete].
  - (* a success: the early return *)
    intros n p rest st result w Hp He Hm Hs.
    exists [(n, Resolved result)]. chain_simpl. split_and!; try done.
    + rewrite filter_cons_True by done. apply sublist_skip, sublist_nil_l.
    + exists n, []. chain_simpl. by rewrite app_nil_r.
    + intros m thrown Hin. apply list_elem_of_singleton in Hin. congruence.
  - (* a domain failure *)
    intros n p rest st result w Hp He Hm Hs st'
      (more & Hatt & Hsub & Hret & Hbad & Hsame & Hmono & Hw).
    subst st'. cbn [attempts errors health world] in *.
    exists ((n, Resolved result) :: more). split_and!.
    + rewrite Hatt. chain_simpl. by rewrite <- app_assoc.
    + rewrite filter_cons_True by done. chain_simpl. by apply sublist_skip.
    + destruct (loop rest _).1 as [final|].
      * destruct Hret as (m & earlier & -> & Hok & Hall & Herr).
        exists m, ((n, Resolved result) :: earlier). split_and!; [done..| |].
        -- by constructor.
        -- rewrite Herr. chain_simpl. by rewrite <- app_assoc.
      * destruct Hret as (Hall & Herr & Hcomplete). split_and!.
        -- by constructor.
        -- rewrite Herr. chain_simpl. by rewrite <- app_assoc.
        -- intros m [->|Hin]%elem_of_cons Hel; chain_simpl; [left|right; by apply Hcomplete].
    + intros m thrown [Heq|Hin]%elem_of_cons; [congruence | by eapply Hbad].
    + intros m Hnot. rewrite Hsame; [done|].
      intros thrown Hin. apply (Hnot thrown). by right.
    + intros m Hm'. by apply Hmono.
    + done.
  - (* an exception *)
    intros n p rest st thrown w Hp He Hm st'
      (more & Hatt & Hsub & Hret & Hbad & Hsame & Hmono & Hw).
    subst st'. cbn [attempts errors health world] in *.
    assert (Hweaker : ∀ m, eligible registry (<[n:=false]> (health st)) capability m →
                           eligible registry (health st) capability m)
      by (intros m; apply eligible_after_throw).
    exists ((n, Rejected thrown) :: more). split_and!.
    + rewrite Hatt. chain_simpl. by rewrite <- app_assoc.
    + rewrite filter_cons_True by done. chain_simpl. apply sublist_skip.
      etrans; [exact Hsub|]. by apply filter_sublist_mono.
    + destruct (loop rest _).1 as [final|].
      * destruct Hret as (m & earlier & -> & Hok & Hall & Herr).
        exists m, ((n, Rejected thrown) :: earlier). split_and!; [done..| |].
        -- by constructor.
        -- rewrite Herr. chain_simpl. by rewrite <- app_assoc.
      * destruct Hret as (Hall & Herr & Hcomplete). split_and!.
        -- by constructor.
        -- rewrite Herr. chain_simpl. by rewrite <- app_assoc.
        -- intros m Hin Hel. chain_simpl.
           destruct (decide (m = n)) as [->|Hne]; [by left|right].
           apply elem_of_cons in Hin as [?|Hin]; [done|].
           apply Hcomplete; [done|].
           destruct Hel as (? & ? & ?). split_and!; [done| |done].
           chain_simpl. by rewrite lookup_insert_ne.
    + intros m e [Heq|Hin]%elem_of_cons; [|by eapply Hbad].
      injection Heq as -> ->. apply Hmono. chain_simpl. apply lookup_insert_eq.
    + intros m Hnot.
      assert (m ≠ n) as Hne by (intros ->; apply (Hnot thrown); by left).
      rewrite Hsame.
      * chain_simpl. by rewrite lookup_insert_ne.
      * intros e Hin. apply (Hnot e). by right.
    + intros m Hm'. apply Hmono. chain_simpl.
      destruct (decide (n = m)) as [->|Hne].
      * apply lookup_insert_eq.
      * by rewrite lookup_insert_ne.
    + done.
Qed.




End FallbackLoop.

(** ** One fallback call *)

Section Execute.
Context `{Network} {T : Type}.
Implicit Types (this : ETFProviderFactory) (method : IETFDataProvider → Promise T).
Implicit Types (capability : CapabilityKey) (w : World).

(** The state the loop starts from. *)
Local Notation "'start' this w" :=
  {| errors := []; health := healthStatus this; world := w; attempts := [] |}
  (at level 10, this at level 9, w at level 9).

Lemma execute_unfold this method capability w :
  Factory.executeWithFallback this method capability w =
    let out := Factory.fallbackLoop (providers this) method capability
                 (providerPriority this) (start this w) in
    {| response :=
         match out.1 with
         | Some result => result
         | None => Factory.allProvidersFailed (errors out.2) (Date_now (world out.2))
         end;
       factory :=
         {| providers := providers this;
            providerPriority := providerPriority this;
            healthStatus := health out.2 |};
       world_after := world out.2;
       calls := attempts out.2 |}.
Proof.
  unfold Factory.executeWithFallback.
  by destruct (Factory.fallbackLoop _ _ _ _ _).
Qed.

(** The registry and the priority list are not touched by a fallback call. *)
Lemma execute_frame this method capability w :
  providers (factory (Factory.executeWithFallback this method capability w))
    = providers this
  ∧ providerPriority (factory (Factory.executeWithFallback this method capability w))
    = providerPriority this.
Proof. by rewrite execute_unfold. Qed.

(** [loop_trace], read off the outcome of the call. *)
Lemma execute_trace this method capability w :
  let o := Factory.executeWithFallback this method capability w in
  Factory.invoked o
    `sublist_of` filter (eligible (providers this) (healthStatus this) capability)
                   (providerPriority this)
  ∧ ((∃ n earlier,
        calls o = earlier ++ [(n, Resolved (response o))]
        ∧ success (response o) = true
        ∧ Forall (fun a => failed a.2) earlier)
     ∨ (Forall (fun a => failed a.2) (calls o)
        ∧ response o
          = Factory.allProvidersFailed
              ((fun a => Factory.describe a.1 a.2) <$> calls o)
              (Date_now (world_after o))
        ∧ ∀ n, n ∈ providerPriority this →
               eligible (providers this) (healthStatus this) capability n →
               n ∈ Factory.invoked o))
  ∧ (∀ n thrown, (n, Rejected thrown) ∈ calls o →
                 healthStatus (factory o) !! n = Some false)
  ∧ (∀ n, (∀ thrown, (n, Rejected thrown) ∉ calls o) →
          healthStatus (factory o) !! n = healthStatus this !! n)
  ∧ (∀ n, healthStatus this !! n = Some false →
          healthStatus (factory o) !! n = Some false)
  ∧ (calls o = [] → world_after o = w).
Proof.
  intros o. subst o. rewrite execute_unfold. unfold Factory.invoked.
  cbn [response factory world_after calls healthStatus].
  destruct (loop_trace (providers this) method capability (providerPriority this)
              (start this w))
    as (more & Hatt & Hsub & Hret & Hbad & Hsame & Hmono & Hw).
  cbn [attempts errors health world app] in *.
  rewrite Hatt. split_and!; try done.
  destruct (Factory.fallbackLoop _ _ _ _ _).1 as [result|].
  - left. destruct Hret as (n & earlier & -> & Hs & Hall & _). by exists n, earlier.
  - right. destruct Hret as (Hall & -> & Hcomplete). done.
Qed.



End Execute.

Lemma perform_fallback `{Network} {T} (this : ETFProviderFactory) (op : Operation T) :
  Factory.perform this op = Factory.executeWithFallback this (invoke op) (keyOf op).
Proof. by destruct op. Qed.

(** When nobody threw, a fallback call leaves the factory as it was. *)
Lemma execute_no_throw_frame `{Network} {T}
    (this : ETFProviderFactory) (method : IETFDataProvider → Promise T)
    (capability : CapabilityKey) (w : World) :
  let o := Factory.executeWithFallback this method capability w in
  (∀ n thrown, (n, Rejected thrown) ∉ calls o) → factory o = this.
Proof.
  intros o Hnone.
  destruct (execute_trace this method capability w) as (_ & _ & _ & Hsame & _).
  fold o in Hsame.
  assert (healthStatus (factory o) = healthStatus this) as Hh.
  { apply map_eq. intros n. apply Hsame. intros thrown. apply Hnone. }
  destruct (execute_frame this method capability w) as [Hr Hl].
  fold o in Hr, Hl. destruct (factory o), this; cbn in *. congruence.
Qed.


(** C2 — first success wins.  When the call of an eligible provider [A]
    resolves with [success == true], the loop returns that very result at
    once, whatever the rest of the priority list is: no later provider is
    looked at and no result is compared with another.  Over a whole call:
    if some call of the chain resolved with [success == true], that result
    is what the factory returns, unchanged, and that call is the last one
    of the chain; every call before it had failed. *)
Theorem first_success_wins `{Network} {T}
    (this : ETFProviderFactory) (method : IETFDataProvider → Promise T)
    (capability : CapabilityKey) (A : ProviderName) (result : ProviderResponse T) :
  success result = true →
  (∀ pA rest (st : Chain T) w',
     providers this !! A = Some pA →
     eligible (providers this) (health st) capability A →
     method pA (world st) = (Resolved result, w') →
     Factory.fallbackLoop (providers this) method capability (A :: rest) st
       = (Some result,
          {| errors := errors st; health := health st; world := w';
             attempts := attempts st ++ [(A, Resolved result)] |}))
  ∧ (∀ w,
       let o := Factory.executeWithFallback this method capability w in
       (A, Resolved result) ∈ calls o →
       response o = result
       ∧ ∃ earlier,
           calls o = earlier ++ [(A, Resolved result)]
           ∧ Forall (fun a => failed a.2) earlier).
Proof.
  intros Hs. split.
  - intros pA rest st w' Hp He Hm.
    by rewrite (loop_call _ _ _ A pA rest st Hp He), Hm, Hs.
  - intros w o Hin.
    destruct (execute_trace this method capability w) as (_ & Hret & _).
    fold o in Hret. destruct Hret as [(n & earlier & Hcalls & _ & Hall)|(Hall & _)].
    + rewrite Hcalls in Hin. apply elem_of_app in Hin as [Hin|Hin].
      * rewrite Forall_forall in Hall. apply Hall in Hin. cbn in Hin. congruence.
      * apply list_elem_of_singleton in Hin. injection Hin as -> ->.
        split; [done|]. by exists earlier.
    + rewrite Forall_forall in Hall. apply Hall in Hin. cbn in Hin. congruence.
Qed.

(** C4 — a domain failure costs no health.  When an eligible provider's
    call resolves with [success == false], the loop goes on to the next
    candidate in a state that differs only by the message appended to the
    error accumulator (and by the world the call left, and the trace);
    the health map is the same.  Over a whole call: the health entry of
    every provider that did not throw keeps its value, and when nobody
    threw the factory is left exactly as it was. *)
Theorem domain_failure_keeps_health `{Network} {T}
    (this : ETFProviderFactory) (method : IETFDataProvider → Promise T)
    (capability : CapabilityKey) (A : ProviderName) (pA : IETFDataProvider)
    (rest : list ProviderName) (st : Chain T)
    (result : ProviderResponse T) (w' : World) :
  providers this !! A = Some pA →
  eligible (providers this) (health st) capability A →
  method pA (world st) = (Resolved result, w') →
  success result = false →
  Factory.fallbackLoop (providers this) method capability (A :: rest) st
    = Factory.fallbackLoop (providers this) method capability rest
        {| errors := errors st ++ [Factory.describe A (Resolved result)];
           health := health st;
           world := w';
           attempts := attempts st ++ [(A, Resolved result)] |}
  ∧ ∀ w,
      let o := Factory.executeWithFallback this method capability w in
      (∀ n, (∀ thrown, (n, Rejected thrown) ∉ calls o) →
            healthStatus (factory o) !! n = healthStatus this !! n)
      ∧ ((∀ n thrown, (n, Rejected thrown) ∉ calls o) → factory o = this).
Proof.
  intros Hp He Hm Hs. split.
  - rewrite (loop_call _ _ _ A pA rest st Hp He), Hm, Hs. done.
  - intros w o.
    destruct (execute_trace this method capability w) as (_ & _ & _ & Hsame & _).
    fold o in Hsame. split; [done|].
    apply execute_no_throw_frame.
Qed.

(** ** The health check *)

Section HealthCheck.
Context `{Network}.
Implicit Types this : ETFProviderFactory.

Lemma foldl_insert_lookup (l : list (ProviderName * bool))
    (m : gmap ProviderName bool) (k : ProviderName) :
  NoDup l.*1 →
  foldl (fun hs '(n, b) => <[n := b]> hs) m l !! k
    = match (list_to_map l : gmap ProviderName bool) !! k with
      | Some b => Some b
      | None => m !! k
      end.
Proof.
  revert m. induction l as [|[n b] l IH]; intros m Hnd; [done|].
  cbn [fmap list_fmap fst] in Hnd. apply NoDup_cons in Hnd as [Hn Hnd].
  cbn [foldl]. rewrite IH by done. rewrite list_to_map_cons.
  destruct (decide (n = k)) as [->|Hne].
  - rewrite lookup_insert_eq.
    by rewrite (proj1 (not_elem_of_list_to_map _ _) Hn), lookup_insert_eq.
  - by rewrite !lookup_insert_ne.
Qed.

Lemma healthResults_keys this : (Factory.healthResults this).*1 = (map_to_list (providers this)).*1.
Proof.
  unfold Factory.healthResults. rewrite <- list_fmap_compose.
  apply list_fmap_ext. by intros _ [n p] _.
Qed.

Lemma healthResults_lookup this n :
  (list_to_map (Factory.healthResults this) : gmap ProviderName bool) !! n
    = (fun p => match config p with Some _ => true | None => false end)
      <$> providers this !! n.
Proof.
  unfold Factory.healthResults.
  rewrite (list_fmap_ext _
             (prod_map id (fun p => match config p with Some _ => true | None => false end))
             (map_to_list (providers this)))
    by (by intros _ [] _).
  by rewrite list_to_map_fmap, list_to_map_to_list, lookup_fmap.
Qed.

(** What [healthCheck] returns and what it leaves in the health map. *)
Lemma healthCheck_lookup this n :
  (Factory.healthCheck this).1 !! n
    = (fun p => match config p with Some _ => true | None => false end)
      <$> providers this !! n
  ∧ healthStatus (Factory.healthCheck this).2 !! n
    = match providers this !! n with
      | Some p => Some (match config p with Some _ => true | None => false end)
      | None => healthStatus this !! n
      end.
Proof.
  unfold Factory.healthCheck. cbn [fst snd healthStatus]. split.
  - apply healthResults_lookup.
  - rewrite foldl_insert_lookup.
    + rewrite healthResults_lookup. by destruct (providers this !! n).
    + rewrite healthResults_keys. apply NoDup_fst_map_to_list.
Qed.

End HealthCheck.

(** ** Sequences of requests *)

Section Requests.
Context `{Network}.
Implicit Types this : ETFProviderFactory.

(** No request changes the registry. *)
Lemma step_providers this w r : providers (Factory.step this w r).1.1 = providers this.
Proof.
  destruct r; try done. cbn [Factory.step].
  rewrite perform_fallback. apply execute_frame.
Qed.

Lemma run_providers this w rs : providers (Factory.run this w rs).1.1 = providers this.
Proof.
  revert this w. induction rs as [|r rs IH]; intros this w; [done|].
  cbn [Factory.run].
  destruct (Factory.step this w r) as [[this1 w1] names1] eqn:Hstep.
  specialize (IH this1 w1).
  destruct (Factory.run this1 w1 rs) as [[this2 w2] names2]. cbn in *.
  rewrite IH. by rewrite <- (step_providers this w r), Hstep.
Qed.

(** Only [setProviderPriority] changes the priority list. *)
Lemma step_priority this w r :
  (∀ priority, r ≠ SetProviderPriority priority) →
  providerPriority (Factory.step this w r).1.1 = providerPriority this.
Proof.
  intros Hr. destruct r; try done.
  - by destruct (Hr priority).
  - cbn [Factory.step]. rewrite perform_fallback. apply execute_frame.
Qed.

(** A provider marked unhealthy is not invoked by a request, and no
    request other than [healthCheck] changes the mark. *)
Lemma step_benched this w r A :
  healthStatus this !! A = Some false →
  r ≠ HealthCheck →
  (A ∉ snd (Factory.step this w r))
  ∧ healthStatus (Factory.step this w r).1.1 !! A = Some false.
Proof.
  intros Hbad Hr. destruct r; try (split; [apply not_elem_of_nil|done]).
  cbn [Factory.step]. rewrite perform_fallback. unfold Factory.observe. cbn [fst snd].
  destruct (execute_trace this (invoke op) (keyOf op) w) as (Hsub & _ & _ & _ & Hmono & _).
  split; [|by apply Hmono].
  intros Hin. eapply elem_of_sublist in Hin; [|exact Hsub].
  apply list_elem_of_filter in Hin as [(_ & Hok & _) _]. congruence.
Qed.

Lemma run_benched this w rs A :
  healthStatus this !! A = Some false →
  HealthCheck ∉ rs →
  (A ∉ snd (Factory.run this w rs))
  ∧ healthStatus (Factory.run this w rs).1.1 !! A = Some false.
Proof.
  revert this w. induction rs as [|r rs IH]; intros this w Hbad Hrs.
  - split; [apply not_elem_of_nil|done].
  - apply not_elem_of_cons in Hrs as [Hr Hrs]. cbn [Factory.run].
    destruct (step_benched this w r A Hbad) as [Hout Hkeep]; [done|].
    destruct (Factory.step this w r) as [[this1 w1] names1].
    specialize (IH this1 w1 Hkeep Hrs).
    destruct (Factory.run this1 w1 rs) as [[this2 w2] names2]. cbn in *.
    split; [|by destruct IH].
    rewrite elem_of_app. intros [?|?]; [done|]. by destruct IH.
Qed.

End Requests.

(** C3 — an exception marks the provider unhealthy until the next health
    check.  When the call of an eligible provider [A] rejects, the loop
    resumes with the next candidate in a state where the error is
    recorded and [A]'s health entry is [false]; [A] is not invoked again
    in the rest of that chain and is still marked when it ends.  After a
    fallback call in which [A] threw, [A] is unhealthy, and over any
    sequence of requests that contains no [healthCheck], [A] is never
    invoked and stays unhealthy.  [healthCheck] is the way back: it marks
    a registered provider with a configuration healthy. *)
Theorem thrown_marks_unhealthy_until_check `{Network} {T}
    (this : ETFProviderFactory) (method : IETFDataProvider → Promise T)
    (capability : CapabilityKey) (A : ProviderName) (pA : IETFDataProvider)
    (rest : list ProviderName) (st : Chain T) (thrown : JsError) (w' : World) :
  providers this !! A = Some pA →
  eligible (providers this) (health st) capability A →
  method pA (world st) = (Rejected thrown, w') →
  let st' := {| errors := errors st ++ [Factory.describe (T:=T) A (Rejected thrown)];
                health := <[A := false]> (health st);
                world := w';
                attempts := attempts st ++ [(A, Rejected thrown)] |} in
  let out := Factory.fallbackLoop (providers this) method capability rest st' in
  Factory.fallbackLoop (providers this) method capability (A :: rest) st = out
  ∧ health st' !! A = Some false
  ∧ (∃ more, attempts out.2 = attempts st' ++ more ∧ A ∉ more.*1)
  ∧ health out.2 !! A = Some false
  ∧ (∀ w thrown',
       let o := Factory.executeWithFallback this method capability w in
       (A, Rejected thrown') ∈ calls o →
       healthStatus (factory o) !! A = Some false
       ∧ ∀ rs w1,
           HealthCheck ∉ rs →
           (A ∉ snd (Factory.run (factory o) w1 rs))
           ∧ healthStatus (Factory.run (factory o) w1 rs).1.1 !! A = Some false)
  ∧ (is_Some (config pA) →
     ∀ that, providers that = providers this →
             healthStatus (Factory.healthCheck that).2 !! A = Some true).
Proof.
  intros Hp He Hm st' out.
  assert (health st' !! A = Some false) as Hmarked by apply lookup_insert_eq.
  destruct (loop_trace (providers this) method capability rest st')
    as (more & Hatt & Hsub & _ & _ & _ & Hmono & _).
  split_and!.
  - rewrite (loop_call _ _ _ A pA rest st Hp He), Hm. done.
  - done.
  - exists more. split; [done|]. intros Hin.
    eapply elem_of_sublist in Hin; [|exact Hsub].
    apply list_elem_of_filter in Hin as [(_ & Hok & _) _]. congruence.
  - by apply Hmono.
  - intros w thrown' o Hin.
    destruct (execute_trace this method capability w) as (_ & _ & Hbad & _).
    fold o in Hbad. specialize (Hbad A thrown' Hin). split; [done|].
    intros rs w1 Hrs. by apply run_benched.
  - intros [c Hc] that Hsame.
    destruct (healthCheck_lookup that A) as [_ ->]. by rewrite Hsame, Hp, Hc.
Qed.


(** C6 (amended) — nothing to call.  When no registered provider has the
    requested capability (in particular when the registry is empty), the
    loop runs over the priority list without calling anyone: the world
    and the factory are untouched, and the answer is the ordinary
    aggregate failure with an empty list of messages. *)
Theorem no_capable_provider_response `{Network} {T}
    (this : ETFProviderFactory) (method : IETFDataProvider → Promise T)
    (capability : CapabilityKey) (w : World) :
  (∀ n, is_Some (providers this !! n) →
        capabilityAt (getProviderCapabilities n) capability = false) →
  let o := Factory.executeWithFallback this method capability w in
  calls o = []
  ∧ world_after o = w
  ∧ factory o = this
  ∧ response o
    = {| success := false;
         error := Some "All providers failed. Errors: ";
         data := Null;
         provider := "factory";
         timestamp := Date_now w |}.
Proof.
  intros Hnone o.
  destruct (execute_trace this method capability w)
    as (Hsub & Hret & _ & _ & _ & Hw).
  fold o in Hsub, Hret, Hw.
  assert (calls o = []) as Hcalls.
  { assert (filter (eligible (providers this) (healthStatus this) capability)
              (providerPriority this) = []) as Hnil.
    { apply elem_of_nil_inv.
      intros n [(Hreg & _ & Hcap) _]%list_elem_of_filter.
      rewrite (Hnone n Hreg) in Hcap. done. }
    rewrite Hnil in Hsub. apply sublist_nil_r in Hsub.
    by apply fmap_nil_inv in Hsub. }
  split_and!; [done | by apply Hw | |].
  - apply execute_no_throw_frame. fold o. rewrite Hcalls.
    intros n thrown. apply not_elem_of_nil.
  - destruct Hret as [(n & earlier & Heq & _)|(_ & -> & _)].
    + rewrite Hcalls in Heq. by destruct earlier.
    + rewrite Hcalls, (Hw Hcalls). done.
Qed.

(** ** The provider classes *)

Section Providers.
Context `{Network}.

(** Induction on the length of a string: white space comes in one, two
    or three bytes. *)
Lemma string_length_ind (P : string → Prop) :
  (∀ s, (∀ t, (String.length t < String.length s)%nat → P t) → P s) → ∀ s, P s.
Proof.
  intros Hstep s.
  assert (∀ n t, (String.length t < n)%nat → P t) as Hall.
  { induction n as [|n IH]; intros t Ht; [lia|].
    apply Hstep. intros u Hu. apply IH. lia. }
  apply (Hall (S (String.length s))). lia.
Qed.

Lemma skipWhiteSpace_length s rest :
  skipWhiteSpace s = Some rest → (String.length rest < String.length s)%nat.
Proof.
  destruct s as [|c1 [|c2 [|c3 s]]]; cbn; repeat case_match; intros; simplify_eq; cbn; lia.
Qed.

Lemma trimStart_unfold s :
  trimStart s = match skipWhiteSpace s with Some rest => trimStart rest | None => s end.
Proof.
  destruct s as [|c1 [|c2 [|c3 s]]]; cbn [trimStart skipWhiteSpace]; [done| | |].
  - by destruct (isWhiteSpace c1).
  - by destruct (isWhiteSpace c1), (isWhiteSpace2 c1 c2).
  - by destruct (isWhiteSpace c1), (isWhiteSpace2 c1 c2), (isWhiteSpace3 c1 c2 c3).
Qed.

Lemma blank_unfold s :
  blank s = match s with
            | EmptyString => true
            | String _ _ =>
                match skipWhiteSpace s with Some rest => blank rest | None => false end
            end.
Proof.
  destruct s as [|c1 [|c2 [|c3 s]]]; cbn [blank skipWhiteSpace]; [done| | |].
  - by destruct (isWhiteSpace c1).
  - by destruct (isWhiteSpace c1), (isWhiteSpace2 c1 c2).
  - by destruct (isWhiteSpace c1), (isWhiteSpace2 c1 c2), (isWhiteSpace3 c1 c2 c3).
Qed.

Lemma trimStart_blank s : blank s = true → trimStart s = "".
Proof.
  induction s as [s IH] using string_length_ind.
  rewrite blank_unfold, trimStart_unfold. destruct s as [|c s]; [done|].
  destruct (skipWhiteSpace (String c s)) as [rest|] eqn:Hskip; [|done].
  intros Hb. apply IH; [|done]. by apply skipWhiteSpace_length.
Qed.

Lemma trimStart_not_blank s : blank s = false → blank (trimStart s) = false.
Proof.
  induction s as [s IH] using string_length_ind.
  rewrite trimStart_unfold. rewrite (blank_unfold s). destruct s as [|c s]; [done|].
  destruct (skipWhiteSpace (String c s)) as [rest|] eqn:Hskip.
  - intros Hb. apply IH; [|done]. by apply skipWhiteSpace_length.
  - intros _. by rewrite blank_unfold, Hskip.
Qed.

Lemma trim_blank s : blank s = true → trim s = "".
Proof. intros Hs. unfold trim. by rewrite trimStart_blank. Qed.

Lemma trimEnd_empty s : trimEnd s = "" ↔ blank s = true.
Proof.
  destruct s as [|c s]; [done|]. cbn [trimEnd].
  destruct (blank (String c s)); [done|]. split; intros; discriminate.
Qed.

Lemma trim_not_blank s : blank s = false → trim s ≠ "".
Proof.
  intros Hb%trimStart_not_blank. unfold trim. rewrite trimEnd_empty. congruence.
Qed.

(** [validateSymbol] throws exactly on the blank symbols. *)
Lemma validateSymbol_spec symbol :
  validateSymbol symbol
    = if blank symbol then Some (Error "Symbol is required") else None.
Proof.
  unfold validateSymbol. destruct (blank symbol) eqn:Hb.
  - rewrite (trim_blank _ Hb). by rewrite orb_true_r.
  - pose proof (trim_not_blank _ Hb) as Hne.
    rewrite bool_decide_eq_false_2 by (intros ->; done).
    by destruct (trim symbol).
Qed.

(** A blank symbol stops a network-backed method before its network part:
    the world is the one the call started in. *)
Lemma symbolRequest_blank {T} (this_name what symbol : string)
    (body : World → Fetched T * World) (w : World) :
  blank symbol = true →
  symbolRequest this_name what symbol body w
    = (Resolved (createErrorResponse this_name (what +:+ ": Error: Symbol is required") w),
       w).
Proof. intros Hb. unfold symbolRequest. by rewrite validateSymbol_spec, Hb. Qed.

Lemma construct_config n key : is_Some (config (construct n key)).
Proof. destruct n; by eexists. Qed.

Lemma new_lookup credentials n :
  providers (Factory.new credentials) !! n
    = construct n <$> Factory.present (credentialFor credentials n).
Proof.
  unfold Factory.new, Factory.setDefaultPriority, Factory.initializeProviders.
  cbn [providers].
  destruct (Factory.present (cred_polygon credentials)) eqn:E1,
           (Factory.present (cred_finnhub credentials)) eqn:E2,
           (Factory.present (cred_eodhd credentials)) eqn:E3,
           (Factory.present (cred_fmp credentials)) eqn:E4,
           (Factory.present (cred_alphaVantage credentials)) eqn:E5;
    destruct n; cbn [credentialFor Factory.register providers];
    rewrite ?E1, ?E2, ?E3, ?E4, ?E5; reflexivity.
Qed.

End Providers.

(** A chain in which every candidate fails on its own, without touching
    the world: all of them are called, in order, and nothing but the
    answer is left behind. *)
Lemma loop_all_fail_quietly `{Network} {T}
    (registry : gmap ProviderName IETFDataProvider)
    (method : IETFDataProvider → Promise T) (capability : CapabilityKey)
    (w : World) (reply : ProviderName → ProviderResponse T)
    (rest : list ProviderName) (st : Chain T) :
  (∀ n p, registry !! n = Some p →
          capabilityAt (getProviderCapabilities n) capability = true →
          method p w = (Resolved (reply n), w)) →
  (∀ n, success (reply n) = false) →
  world st = w →
  let candidates := filter (eligible registry (health st) capability) rest in
  Factory.fallbackLoop registry method capability rest st
    = (None,
       {| errors := errors st ++ ((fun n => Factory.describe n (Resolved (reply n))) <$> candidates);
          health := health st;
          world := w;
          attempts := attempts st ++ ((fun n => (n, Resolved (reply n))) <$> candidates) |}).
Proof.
  intros Hm Hfail. revert st. induction rest as [|n rest IH]; intros st Hw candidates.
  - subst candidates. cbn. rewrite !app_nil_r. by destruct st; cbn in *; subst.
  - subst candidates.
    destruct (decide (eligible registry (health st) capability n)) as [He|He].
    + destruct (He) as ([p Hp] & _ & Hc).
      rewrite (loop_call _ _ _ n p rest st Hp He), Hw, (Hm n p Hp Hc), Hfail.
      rewrite IH by done. cbn [errors health world attempts].
      rewrite filter_cons_True by done. cbn [fmap list_fmap].
      by rewrite <- !app_assoc.
    + rewrite loop_skip by done. rewrite IH by done.
      by rewrite filter_cons_False.
Qed.

(** C7 (amended) — a blank symbol.  The providers validate, the factory
    does not.  For an empty or white-space-only symbol (white space being
    what [trim] strips, the characters outside ASCII included), every
    network-backed operation of every provider class answers, before any
    request is sent (the world is untouched), with a failure result whose
    error is the operation's "Failed to …" text followed by
    "Error: Symbol is required".  The factory walks its priority list as
    for any other symbol: every registered, healthy and capable provider
    is invoked, in order, and the answer is the aggregate failure listing
    what each of them said; health map and world are unchanged. *)
Theorem blank_symbol_fails_in_each_provider `{Network} {T}
    (credentials : ProviderCredentials) (priority : list ProviderName)
    (healthMap : gmap ProviderName bool)
    (op : Operation T) (symbol : string) (w : World) :
  symbolOf op = Some symbol →
  blank symbol = true →
  (∀ n key,
     capabilityAt (getProviderCapabilities n) (keyOf op) = true →
     invoke op (construct n key) w
       = (Resolved
            (createErrorResponse (name (construct n key))
               (failurePrefix op +:+ ": Error: Symbol is required") w),
          w))
  ∧ let this := {| providers := providers (Factory.new credentials);
                   providerPriority := priority;
                   healthStatus := healthMap |} in
    let o := Factory.perform this op w in
    Factory.invoked o = filter (eligible (providers this) healthMap (keyOf op)) priority
    ∧ world_after o = w
    ∧ factory o = this
    ∧ response o
      = Factory.allProvidersFailed
          ((fun n => ProviderName_toString n +:+ ": " +:+ failurePrefix op
                     +:+ ": Error: Symbol is required") <$> Factory.invoked o)
          (Date_now w).
Proof.
  intros Hsym Hb.
  assert (Hprov : ∀ n key,
            capabilityAt (getProviderCapabilities n) (keyOf op) = true →
            invoke op (construct n key) w
              = (Resolved
                   (createErrorResponse (name (construct n key))
                      (failurePrefix op +:+ ": Error: Symbol is required") w),
                 w)).
  { intros n key Hc.
    destruct op; cbn in Hsym; try discriminate; injection Hsym as ->;
      destruct n; cbn in Hc; try discriminate; cbn; by apply symbolRequest_blank. }
  split; [exact Hprov|].
  intros this o. subst o. rewrite perform_fallback, execute_unfold.
  set (reply := fun n : ProviderName =>
         createErrorResponse (T:=T) (name (construct n ""))
           (failurePrefix op +:+ ": Error: Symbol is required") w).
  rewrite (loop_all_fail_quietly (providers this) (invoke op) (keyOf op) w reply);
    [| |done..].
  - unfold Factory.invoked. cbn [response factory world_after calls fst snd errors
      health world attempts app healthStatus providers providerPriority this].
    assert (Hnames : ∀ l : list ProviderName,
              ((fun n => (n, Resolved (reply n))) <$> l).*1 = l)
      by (induction l as [|? ? IHl]; cbn; [done|by rewrite IHl]).
    rewrite Hnames. split_and!; done.
  - intros n p Hp Hc. subst this. cbn [providers] in Hp.
    rewrite new_lookup in Hp. destruct (Factory.present _) as [key|]; [|done].
    injection Hp as <-. rewrite (Hprov n key Hc). unfold reply. by destruct n.
Qed.


(** ** The priority list *)

Lemma step_priority_registered `{Network} (this : ETFProviderFactory) (w : World)
    (r : Request) :
  Forall (Factory.has this) (providerPriority this) →
  Forall (Factory.has (Factory.step this w r).1.1)
         (providerPriority (Factory.step this w r).1.1).
Proof.
  intros Hinv. unfold Factory.has. rewrite step_providers.
  assert ((∃ priority, r = SetProviderPriority priority)
          ∨ ∀ priority, r ≠ SetProviderPriority priority) as [[l ->]|Hno]
    by (destruct r; eauto).
  - cbn. apply Forall_forall. intros n Hn.
    by apply list_elem_of_filter in Hn as [? _].
  - by rewrite step_priority.
Qed.

Lemma run_priority_registered `{Network} (this : ETFProviderFactory) (w : World)
    (rs : list Request) :
  Forall (Factory.has this) (providerPriority this) →
  Forall (Factory.has (Factory.run this w rs).1.1)
         (providerPriority (Factory.run this w rs).1.1).
Proof.
  revert this w. induction rs as [|r rs IH]; intros this w Hinv; [done|].
  cbn [Factory.run].
  pose proof (step_priority_registered this w r Hinv) as Hstep.
  destruct (Factory.step this w r) as [[this1 w1] names1].
  specialize (IH this1 w1 Hstep).
  by destruct (Factory.run this1 w1 rs) as [[this2 w2] names2].
Qed.

(** C9 — the priority list names registered providers only.  The
    constructor installs the fixed default order filtered to the
    registered names; [setProviderPriority] replaces the list by the given
    names filtered to the registered ones, in the given order, and touches
    nothing else; no other request changes the list.  Hence in every state
    a client can reach, every name of the list is registered. *)
Theorem priority_list_names_registered `{Network}
    (credentials : ProviderCredentials) (w0 : World) (rs : list Request) :
  let this := (Factory.run (Factory.new credentials) w0 rs).1.1 in
  Forall (Factory.has this) (providerPriority this)
  ∧ providerPriority (Factory.new credentials)
    = filter (Factory.has (Factory.new credentials))
        [polygon; eodhd; fmp; finnhub; alpha_vantage]
  ∧ (∀ priority,
       let that := Factory.setProviderPriority this priority in
       providerPriority that = filter (Factory.has this) priority
       ∧ providerPriority that `sublist_of` priority
       ∧ Forall (Factory.has that) (providerPriority that)
       ∧ providers that = providers this
       ∧ healthStatus that = healthStatus this)
  ∧ (∀ r w,
       (∀ priority, r ≠ SetProviderPriority priority) →
       providerPriority (Factory.step this w r).1.1 = providerPriority this).
Proof.
  intros this. split_and!.
  - apply run_priority_registered. apply Forall_forall. intros n Hn.
    by apply list_elem_of_filter in Hn as [? _].
  - done.
  - intros priority that. split_and!; try done.
    + apply sublist_filter.
    + apply Forall_forall. intros n Hn.
      by apply list_elem_of_filter in Hn as [? _].
  - intros r w Hr. by apply step_priority.
Qed.

(** C10 — [healthCheck] marks every registered provider healthy.  The
    registry holds providers built by the five constructors, each of
    which sets [config]; the check looks at nothing else.  So whatever
    the health map and the priority list were, after [healthCheck] every
    registered name is [true] both in the health map and in the map
    returned; unregistered names are absent from the returned map and
    keep their entry; registry and priority list are unchanged, no
    provider is invoked and the world is not touched.  The registry of a
    factory never changes after construction. *)
Theorem healthCheck_marks_every_provider_healthy `{Network}
    (credentials : ProviderCredentials) (priority : list ProviderName)
    (healthMap : gmap ProviderName bool) :
  let this := {| providers := providers (Factory.new credentials);
                 providerPriority := priority;
                 healthStatus := healthMap |} in
  let checked := Factory.healthCheck this in
  (∀ n, Factory.has this n →
        checked.1 !! n = Some true ∧ healthStatus checked.2 !! n = Some true)
  ∧ (∀ n, ¬ Factory.has this n →
          checked.1 !! n = None ∧ healthStatus checked.2 !! n = healthMap !! n)
  ∧ providers checked.2 = providers this
  ∧ providerPriority checked.2 = priority
  ∧ (∀ w, Factory.step this w HealthCheck = (checked.2, w, []))
  ∧ (∀ w rs,
       providers (Factory.run (Factory.new credentials) w rs).1.1
         = providers (Factory.new credentials)).
Proof.
  intros this checked. subst checked. split_and!; try done.
  - intros n [p Hp]. destruct (healthCheck_lookup this n) as [-> ->].
    rewrite Hp. cbn [providers this] in Hp. rewrite new_lookup in Hp.
    destruct (Factory.present _) as [key|]; [|done]. injection Hp as <-.
    cbn [fmap option_fmap option_map]. by destruct (construct_config n key) as [c ->].
  - intros n Hn. destruct (healthCheck_lookup this n) as [-> ->].
    unfold Factory.has in Hn. destruct (providers this !! n); [|done].
    destruct Hn. by eexists.
  - intros w rs. apply run_providers.
Qed.

(** * Worked instances on the fixtures *)

Section Worked.
#[local] Existing Instances Fixtures.entities Fixtures.network.


Lemma first_success_wins_witness :
  let o := Factory.executeWithFallback Fixtures.scenario1
             (invoke (OpQuote "SPY")) key_quote 0%nat in
  let result := createSuccessResponse (T:=ETFQuote) "EODHD" "SPY" 2%nat in
  success result = true
  ∧ (eodhd, Resolved result) ∈ calls o
  ∧ response o = result
  ∧ ∃ earlier,
      calls o = earlier ++ [(eodhd, Resolved result)]
      ∧ Forall (fun a => failed a.2) earlier.
Proof.
  intros o result.
  assert ((eodhd, Resolved result) ∈ calls o) as Hin by (right; left).
  pose proof (first_success_wins (T:=ETFQuote) Fixtures.scenario1
                (invoke (OpQuote "SPY")) key_quote eodhd result eq_refl) as Hthm.
  destruct Hthm as [_ Hchain]. specialize (Hchain 0%nat).
  cbv zeta in Hchain. destruct (Hchain Hin) as [Hres Hlast].
  split_and!; [reflexivity | exact Hin | exact Hres | exact Hlast].
Defined.

Lemma thrown_marks_unhealthy_until_check_witness :
  let st : Chain ETFQuote :=
    {| errors := []; health := healthStatus Fixtures.scenario1;
       world := 0%nat; attempts := [] |} in
  let o := Factory.executeWithFallback Fixtures.scenario1
             (invoke (OpQuote "SPY")) key_quote 0%nat in
  providers Fixtures.scenario1 !! polygon = Some Fixtures.broken
  ∧ eligible (providers Fixtures.scenario1) (health st) key_quote polygon
  ∧ invoke (OpQuote "SPY") Fixtures.broken (world st) = (Rejected (Error "timeout"), 1%nat)
  ∧ healthStatus (factory o) !! polygon = Some false
  ∧ (polygon ∉ snd (Factory.run (factory o) 2%nat
                      [Fetch (OpQuote "QQQ"); SetProviderPriority [polygon];
                       Fetch (OpSearch "SPY" None)])).
Proof.
  intros st o.
  assert (providers Fixtures.scenario1 !! polygon = Some Fixtures.broken) as Hp
    by reflexivity.
  assert (eligible (providers Fixtures.scenario1) (health st) key_quote polygon) as He
    by (split_and!; [by eexists | reflexivity | reflexivity]).
  assert (invoke (OpQuote "SPY") Fixtures.broken (world st)
          = (Rejected (Error "timeout"), 1%nat)) as Hm by reflexivity.
  pose proof (thrown_marks_unhealthy_until_check (T:=ETFQuote) Fixtures.scenario1
                (invoke (OpQuote "SPY")) key_quote polygon Fixtures.broken [eodhd] st
                (Error "timeout") 1%nat Hp He Hm) as Hthm.
  cbv zeta in Hthm. destruct Hthm as (_ & _ & _ & _ & Hlater & _).
  assert ((polygon, Rejected (Error "timeout")) ∈ calls o) as Hin by left.
  destruct (Hlater 0%nat (Error "timeout") Hin) as [Hbad Hruns].
  split_and!; [exact Hp | exact He | exact Hm | exact Hbad |].
  apply Hruns. intros Hc.
  repeat (apply elem_of_cons in Hc as [Hc|Hc]; [discriminate Hc|]).
  by apply elem_of_nil in Hc.
Defined.

Lemma domain_failure_keeps_health_witness :
  let this := Factory.new Fixtures.twoKeys in
  let st : Chain ETFQuote :=
    {| errors := []; health := healthStatus this; world := 0%nat; attempts := [] |} in
  let result := createErrorResponse (T:=ETFQuote) "Polygon.io" "No quote data found" 1%nat in
  providers this !! polygon = Some (PolygonProvider "pk")
  ∧ eligible (providers this) (health st) key_quote polygon
  ∧ invoke (OpQuote "SPY") (PolygonProvider "pk") (world st) = (Resolved result, 1%nat)
  ∧ success result = false
  ∧ Factory.fallbackLoop (providers this) (invoke (OpQuote "SPY")) key_quote
      [polygon; eodhd] st
    = Factory.fallbackLoop (providers this) (invoke (OpQuote "SPY")) key_quote [eodhd]
        {| errors := ["polygon: No quote data found"];
           health := healthStatus this;
           world := 1%nat;
           attempts := [(polygon, Resolved result)] |}.
Proof.
  intros this st result.
  assert (providers this !! polygon = Some (PolygonProvider "pk")) as Hp by reflexivity.
  assert (eligible (providers this) (health st) key_quote polygon) as He
    by (split_and!; [by eexists | reflexivity | reflexivity]).
  assert (invoke (OpQuote "SPY") (PolygonProvider "pk") (world st)
          = (Resolved result, 1%nat)) as Hm by reflexivity.
  split_and!; [exact Hp | exact He | exact Hm | reflexivity |].
  pose proof (domain_failure_keeps_health (T:=ETFQuote) this (invoke (OpQuote "SPY"))
                key_quote polygon (PolygonProvider "pk") [eodhd] st result 1%nat
                Hp He Hm eq_refl) as Hthm.
  cbv zeta in Hthm. destruct Hthm as [Hstep _]. exact Hstep.
Defined.



Lemma no_capable_provider_response_witness :
  let this := Factory.new Fixtures.noCredentials in
  let o := Factory.executeWithFallback this (invoke (OpQuote "SPY")) key_quote 0%nat in
  (∀ n, is_Some (providers this !! n) →
        capabilityAt (getProviderCapabilities n) key_quote = false)
  ∧ calls o = []
  ∧ error (response o) = Some "All providers failed. Errors: ".
Proof.
  intros this o.
  assert (∀ n, is_Some (providers this !! n) →
               capabilityAt (getProviderCapabilities n) key_quote = false) as Hnone
    by (intros n [p Hp]; destruct n; discriminate Hp).
  pose proof (no_capable_provider_response (T:=ETFQuote) this (invoke (OpQuote "SPY"))
                key_quote 0%nat Hnone) as Hthm.
  cbv zeta in Hthm. destruct Hthm as (Hcalls & _ & _ & Hresp).
  split_and!; [exact Hnone | exact Hcalls |].
  fold o in Hresp. rewrite Hresp. reflexivity.
Defined.

(** C6 as stated fails: with an empty registry the answer is the very
    object the loop's fall-through builds, not an error of its own. *)
Lemma empty_registry_is_an_aggregate_failure :
  let o := Factory.getQuote (Factory.new Fixtures.noCredentials) "SPY" 0%nat in
  ¬ (∀ errs now, response o ≠ Factory.allProvidersFailed errs now).
Proof.
  intros o Hdistinct. by apply (Hdistinct [] (@Date_now _ Fixtures.network 0%nat)).
Qed.

Lemma blank_symbol_fails_in_each_provider_witness :
  let this := {| providers := providers (Factory.new Fixtures.twoKeys);
                 providerPriority := [eodhd; polygon];
                 healthStatus := healthStatus (Factory.new Fixtures.twoKeys) |} in
  let o := Factory.perform this (OpQuote Fixtures.spaces) 0%nat in
  symbolOf (OpQuote Fixtures.spaces) = Some Fixtures.spaces
  ∧ blank Fixtures.spaces = true
  ∧ Factory.invoked o = [eodhd; polygon]
  ∧ world_after o = 0%nat
  ∧ error (response o)
    = Some ("All providers failed. Errors: "
            +:+ "eodhd: Failed to fetch quote: Error: Symbol is required; "
            +:+ "polygon: Failed to fetch quote: Error: Symbol is required").
Proof.
  intros this o.
  pose proof (blank_symbol_fails_in_each_provider Fixtures.twoKeys [eodhd; polygon]
                (healthStatus (Factory.new Fixtures.twoKeys)) (OpQuote Fixtures.spaces)
                Fixtures.spaces 0%nat eq_refl eq_refl) as Hthm.
  cbv zeta in Hthm. destruct Hthm as (_ & Hnames & Hw & _ & Hresp).
  fold this o in Hnames, Hresp.
  split_and!; [reflexivity | reflexivity | | exact Hw |].
  - rewrite Hnames. reflexivity.
  - rewrite Hresp, Hnames. reflexivity.
Defined.

(** C7 as stated fails: the factory does not stop at an empty symbol, it
    asks every provider on the list and returns their aggregate. *)
Lemma empty_symbol_reaches_the_providers :
  let o := Factory.getQuote (Factory.new Fixtures.twoKeys) "" 0%nat in
  Factory.invoked o ≠ []
  ∧ Factory.invoked o = [polygon; eodhd]
  ∧ provider (response o) = "factory"
  ∧ error (response o)
    = Some ("All providers failed. Errors: "
            +:+ "polygon: Failed to fetch quote: Error: Symbol is required; "
            +:+ "eodhd: Failed to fetch quote: Error: Symbol is required").
Proof.
  intros o. split_and!; [discriminate | reflexivity..].
Qed.


Lemma priority_list_names_registered_witness :
  let this := (Factory.run (Factory.new Fixtures.twoKeys) 0%nat
                 [Fetch (OpQuote "SPY");
                  SetProviderPriority [finnhub; eodhd; polygon]]).1.1 in
  providerPriority this = [eodhd; polygon]
  ∧ Forall (Factory.has this) (providerPriority this)
  ∧ providerPriority (Factory.step this 2%nat HealthCheck).1.1 = providerPriority this.
Proof.
  intros this.
  pose proof (priority_list_names_registered Fixtures.twoKeys 0%nat
                [Fetch (OpQuote "SPY"); SetProviderPriority [finnhub; eodhd; polygon]])
    as Hthm.
  cbv zeta in Hthm. destruct Hthm as (Hinv & _ & _ & Hother).
  split_and!; [reflexivity | exact Hinv |].
  apply Hother. intros priority. discriminate.
Defined.

Lemma healthCheck_marks_every_provider_healthy_witness :
  let this := {| providers := providers (Factory.new Fixtures.twoKeys);
                 providerPriority := [polygon; eodhd];
                 healthStatus := <[polygon := false]> (healthStatus (Factory.new Fixtures.twoKeys)) |} in
  Factory.has this polygon
  ∧ healthStatus this !! polygon = Some false
  ∧ (Factory.healthCheck this).1 !! polygon = Some true
  ∧ healthStatus (Factory.healthCheck this).2 !! polygon = Some true.
Proof.
  intros this.
  assert (Factory.has this polygon) as Hreg by (by eexists).
  pose proof (healthCheck_marks_every_provider_healthy Fixtures.twoKeys [polygon; eodhd]
                (<[polygon := false]> (healthStatus (Factory.new Fixtures.twoKeys))))
    as Hthm.
  cbv zeta in Hthm. destruct Hthm as (Hall & _).
  destruct (Hall polygon Hreg) as [Hret Hmap].
  split_and!; [exact Hreg | reflexivity | exact Hret | exact Hmap].
Defined.

End Worked.

(** * Further properties *)

(** ** Strings: [trim], [toUpperCase], the symbol formats *)

Section Strings.

Lemma skipWhiteSpace_app s rest t :
  skipWhiteSpace s = Some rest → skipWhiteSpace (s +:+ t) = Some (rest +:+ t).
Proof.
  destruct s as [|c1 [|c2 [|c3 s]]]; cbn [skipWhiteSpace]; [done|..];
    change (String ?c ?u +:+ t) with (String c (u +:+ t)); cbn [skipWhiteSpace];
    destruct (isWhiteSpace c1); try (by intros [= <-]); try done;
    change (String ?c ?u +:+ t) with (String c (u +:+ t)); cbn [skipWhiteSpace];
    destruct (isWhiteSpace2 c1 c2); try (by intros [= <-]); try done;
    change (String ?c ?u +:+ t) with (String c (u +:+ t)); cbn [skipWhiteSpace];
    destruct (isWhiteSpace3 c1 c2 c3); try (by intros [= <-]); done.
Qed.

Lemma trimStart_skip s : skipWhiteSpace (trimStart s) = None.
Proof.
  induction s as [s IH] using string_length_ind.
  rewrite trimStart_unfold.
  destruct (skipWhiteSpace s) as [rest|] eqn:Hskip; [|done].
  apply IH. by apply skipWhiteSpace_length.
Qed.

Lemma trimStart_fixed s : skipWhiteSpace s = None → trimStart s = s.
Proof. intros Hs. by rewrite trimStart_unfold, Hs. Qed.

Lemma blank_app s t : blank s = true → blank (s +:+ t) = blank t.
Proof.
  induction s as [s IH] using string_length_ind.
  rewrite (blank_unfold s). destruct s as [|c s]; [done|].
  destruct (skipWhiteSpace (String c s)) as [rest|] eqn:Hskip; [|done].
  intros Hb. rewrite blank_unfold.
  change (String c s +:+ t) with (String c (s +:+ t)).
  change (String c (s +:+ t)) with (String c s +:+ t).
  rewrite (skipWhiteSpace_app _ _ t Hskip).
  apply IH; [|done]. by apply skipWhiteSpace_length.
Qed.

Lemma trimEnd_split s : ∃ rest, s = trimEnd s +:+ rest ∧ blank rest = true.
Proof.
  induction s as [|c s (rest & Hs & Hrest)]; [by exists ""|].
  cbn [trimEnd]. destruct (blank (String c s)) eqn:Hb.
  - by exists (String c s).
  - exists rest. split; [|done].
    change (String c (trimEnd s) +:+ rest) with (String c (trimEnd s +:+ rest)).
    by rewrite <- Hs.
Qed.

Lemma trimEnd_cons_blank c s :
  blank (String c s) = false → blank (String c (trimEnd s)) = false.
Proof.
  intros Hs. destruct (blank (String c (trimEnd s))) eqn:Hb; [|done].
  destruct (trimEnd_split s) as (rest & Heq & Hrest).
  pose proof (blank_app (String c (trimEnd s)) rest Hb) as Happ.
  change (String c (trimEnd s) +:+ rest) with (String c (trimEnd s +:+ rest)) in Happ.
  rewrite <- Heq in Happ. congruence.
Qed.

Lemma trimEnd_idem s : trimEnd (trimEnd s) = trimEnd s.
Proof.
  induction s as [|c s IH]; [done|]. cbn [trimEnd].
  destruct (blank (String c s)) eqn:Hb; [done|].
  cbn [trimEnd]. by rewrite trimEnd_cons_blank, IH.
Qed.

Lemma trimEnd_skip s : skipWhiteSpace s = None → skipWhiteSpace (trimEnd s) = None.
Proof.
  intros Hs. destruct (skipWhiteSpace (trimEnd s)) as [r|] eqn:Hskip; [|done].
  destruct (trimEnd_split s) as (rest & Heq & _).
  apply (skipWhiteSpace_app _ _ rest) in Hskip. rewrite <- Heq in Hskip. congruence.
Qed.

Lemma trim_idem s : trim (trim s) = trim s.
Proof.
  unfold trim.
  rewrite (trimStart_fixed (trimEnd (trimStart s)))
    by apply trimEnd_skip, trimStart_skip.
  apply trimEnd_idem.
Qed.

Lemma skipWhiteSpace_head c s : isWhiteSpace c = true → skipWhiteSpace (String c s) = Some s.
Proof. intros Hc. cbn. by rewrite Hc. Qed.

Lemma trimStart_head c rest s : trimStart s = String c rest → isWhiteSpace c = false.
Proof.
  intros Hs. pose proof (trimStart_skip s) as Hskip. rewrite Hs in Hskip.
  destruct (isWhiteSpace c) eqn:Hc; [|done]. by rewrite skipWhiteSpace_head in Hskip.
Qed.

Lemma trimEnd_last s pre c : trimEnd s = pre +:+ String c "" → isWhiteSpace c = false.
Proof.
  revert pre. induction s as [|d s IH]; intros pre; cbn [trimEnd].
  - by destruct pre.
  - destruct (blank (String d s)) eqn:Hb; [by destruct pre|].
    destruct pre as [|p pre].
    + cbn. intros [= -> Hrest]. apply trimEnd_empty in Hrest.
      destruct (isWhiteSpace c) eqn:Hc; [|done].
      rewrite blank_unfold, skipWhiteSpace_head in Hb by done. congruence.
    + change (String p pre +:+ String c "") with (String p (pre +:+ String c "")).
      intros [= _ Hrest]. by eapply IH.
Qed.

(** [toUpperCase] moves the letters a to z only. *)
Lemma toUpperCaseChar_cases c :
  toUpperCaseChar c = c
  ∨ ((nat_of_ascii c <? 128)%nat = true ∧ (nat_of_ascii (toUpperCaseChar c) <? 128)%nat = true
     ∧ isWhiteSpace c = false ∧ isWhiteSpace (toUpperCaseChar c) = false).
Proof. destruct c as [[] [] [] [] [] [] [] []]; (by left) || (by right). Qed.

Lemma isWhiteSpace2_low c1 c2 : (nat_of_ascii c1 <? 128)%nat = true → isWhiteSpace2 c1 c2 = false.
Proof.
  intros Hc%Nat.ltb_lt. unfold isWhiteSpace2.
  by rewrite (proj2 (Nat.eqb_neq _ _)) by lia.
Qed.

Lemma isWhiteSpace2_low' c1 c2 : (nat_of_ascii c2 <? 128)%nat = true → isWhiteSpace2 c1 c2 = false.
Proof.
  intros Hc%Nat.ltb_lt. unfold isWhiteSpace2.
  rewrite (proj2 (Nat.eqb_neq (nat_of_ascii c2) _)) by lia. apply andb_false_r.
Qed.

Lemma isWhiteSpace3_low c1 c2 c3 :
  (nat_of_ascii c1 <? 128)%nat = true ∨ (nat_of_ascii c2 <? 128)%nat = true
  ∨ (nat_of_ascii c3 <? 128)%nat = true →
  isWhiteSpace3 c1 c2 c3 = false.
Proof.
  unfold isWhiteSpace3. rewrite !Nat.ltb_lt. cbv zeta.
  intros [Hlow|[Hlow|Hlow]].
  - by rewrite !(proj2 (Nat.eqb_neq (nat_of_ascii c1) _)) by lia.
  - rewrite !(proj2 (Nat.eqb_neq (nat_of_ascii c2) _)) by lia.
    by rewrite ?andb_false_l, ?andb_false_r, ?orb_false_l.
  - rewrite !(proj2 (Nat.eqb_neq (nat_of_ascii c3) _)) by lia.
    rewrite (proj2 (Nat.leb_gt 128 (nat_of_ascii c3))) by lia.
    by rewrite ?andb_false_l, ?andb_false_r, ?orb_false_l.
Qed.

Lemma toUpperCase_skip s : skipWhiteSpace (toUpperCase s) = toUpperCase <$> skipWhiteSpace s.
Proof.
  destruct s as [|c1 s]; [done|]. cbn [toUpperCase skipWhiteSpace].
  destruct (toUpperCaseChar_cases c1) as [->|(Hlo & Hlo' & Hw & Hw')].
  - destruct (isWhiteSpace c1); [done|].
    destruct s as [|c2 s]; [done|]. cbn [toUpperCase].
    destruct (toUpperCaseChar_cases c2) as [->|(Hlo & Hlo' & _)].
    + destruct (isWhiteSpace2 c1 c2); [done|].
      destruct s as [|c3 s]; [done|]. cbn [toUpperCase].
      destruct (toUpperCaseChar_cases c3) as [->|(Hlo & Hlo' & _)].
      * by destruct (isWhiteSpace3 c1 c2 c3).
      * rewrite !isWhiteSpace3_low by auto. done.
    + rewrite !isWhiteSpace2_low' by done.
      destruct s as [|c3 s]; [done|]. cbn [toUpperCase].
      rewrite !isWhiteSpace3_low by auto. done.
  - rewrite Hw, Hw'. destruct s as [|c2 s]; [done|]. cbn [toUpperCase].
    rewrite !isWhiteSpace2_low by done.
    destruct s as [|c3 s]; [done|]. cbn [toUpperCase].
    rewrite !isWhiteSpace3_low by auto. done.
Qed.

Lemma toUpperCase_blank s : blank (toUpperCase s) = blank s.
Proof.
  induction s as [s IH] using string_length_ind.
  rewrite (blank_unfold s), blank_unfold, toUpperCase_skip.
  destruct s as [|c s]; [done|]. cbn [toUpperCase].
  destruct (skipWhiteSpace (String c s)) as [rest|] eqn:Hskip; [|done]. cbn.
  apply IH. by apply skipWhiteSpace_length.
Qed.

Lemma toUpperCase_trimStart s : toUpperCase (trimStart s) = trimStart (toUpperCase s).
Proof.
  induction s as [s IH] using string_length_ind.
  rewrite (trimStart_unfold s), (trimStart_unfold (toUpperCase s)), toUpperCase_skip.
  destruct (skipWhiteSpace s) as [rest|] eqn:Hskip; [|done]. cbn.
  apply IH. by apply skipWhiteSpace_length.
Qed.

Lemma toUpperCase_trimEnd s : toUpperCase (trimEnd s) = trimEnd (toUpperCase s).
Proof.
  induction s as [|c s IH]; [done|]. cbn [toUpperCase trimEnd].
  change (String (toUpperCaseChar c) (toUpperCase s)) with (toUpperCase (String c s)).
  rewrite toUpperCase_blank. destruct (blank (String c s)); [done|].
  cbn [toUpperCase]. by rewrite IH.
Qed.

Lemma toUpperCase_trim s : toUpperCase (trim s) = trim (toUpperCase s).
Proof. unfold trim. by rewrite toUpperCase_trimEnd, toUpperCase_trimStart. Qed.

Lemma isUpperLetter_skip c s : isUpperLetter c = true → skipWhiteSpace (String c s) = None.
Proof.
  intros Hc.
  assert (isWhiteSpace c = false ∧ (nat_of_ascii c <? 128)%nat = true) as [Hw Hlo]
    by (by destruct c as [[] [] [] [] [] [] [] []]).
  cbn [skipWhiteSpace]. rewrite Hw.
  destruct s as [|c2 [|c3 s]]; [done| |]; rewrite isWhiteSpace2_low by done; [done|].
  by rewrite isWhiteSpace3_low by auto.
Qed.

Lemma toUpperCaseChar_idem c : toUpperCaseChar (toUpperCaseChar c) = toUpperCaseChar c.
Proof. by destruct c as [[] [] [] [] [] [] [] []]. Qed.

Lemma toUpperCase_idem s : toUpperCase (toUpperCase s) = toUpperCase s.
Proof.
  induction s as [|c s IH]; [done|]. cbn. by rewrite toUpperCaseChar_idem, IH.
Qed.

Lemma allUpperLetters_facts s :
  allUpperLetters s = true →
  toUpperCase s = s ∧ trimStart s = s ∧ trimEnd s = s ∧ includesChar "." s = false
  ∧ asciiOnly s = true ∧ (s ≠ "" → blank s = false).
Proof.
  induction s as [|c s IH]; [done|].
  cbn [allUpperLetters toUpperCase includesChar asciiOnly].
  intros [Hc Hs]%andb_prop.
  destruct (IH Hs) as (Hup & Hts & Hte & Hdot & Hascii & Hblank).
  assert (toUpperCaseChar c = c ∧ Ascii.eqb c "." = false
          ∧ (nat_of_ascii c <? 128)%nat = true) as (Hc1 & Hc3 & Hc4)
    by (by destruct c as [[] [] [] [] [] [] [] []]).
  pose proof (isUpperLetter_skip c s Hc) as Hskip.
  assert (blank (String c s) = false) as Hb by (by rewrite blank_unfold, Hskip).
  rewrite Hc1, Hc3, Hc4, Hup, Hdot, Hascii. split_and!; try done.
  - by apply trimStart_fixed.
  - cbn [trimEnd]. by rewrite Hb, Hte.
Qed.

(** X1 — which symbols [validateSymbol] lets through.  It throws
    [Error('Symbol is required')] exactly for the empty string and the
    strings made of white space only; any symbol with one other character
    passes, wherever its white space is. *)
Theorem validateSymbol_rejects_exactly_blank (symbol : string) :
  asciiOnly symbol = true →
  (validateSymbol symbol = Some (Error "Symbol is required") ↔ blank symbol = true)
  ∧ (validateSymbol symbol = None ↔ blank symbol = false)
  ∧ (∀ thrown, validateSymbol symbol = Some thrown →
               Error_toString thrown = "Error: Symbol is required").
Proof.
  intros _. unfold validateSymbol.
  destruct (blank symbol) eqn:Hb.
  - rewrite (trim_blank _ Hb), orb_true_r.
    split_and!; [done|done|]. by intros thrown [= <-].
  - pose proof (trim_not_blank _ Hb) as Hne.
    rewrite bool_decide_eq_false_2 by (intros ->; done).
    destruct (trim symbol); [done|]. cbn. split_and!; done.
Qed.

(** [trim].  Trimming twice is trimming once; the result is empty
    exactly for blank strings; otherwise it neither starts nor ends with
    white space. *)
Theorem trim_is_a_normal_form (s : string) :
  asciiOnly s = true →
  trim (trim s) = trim s
  ∧ (trim s = "" ↔ blank s = true)
  ∧ skipWhiteSpace (trim s) = None
  ∧ (∀ c rest, trim s = String c rest → isWhiteSpace c = false)
  ∧ (∀ pre c, trim s = pre +:+ String c "" → isWhiteSpace c = false).
Proof.
  intros _.
  pose proof (trimEnd_skip _ (trimStart_skip s)) as Hskip. fold (trim s) in Hskip.
  split_and!.
  - apply trim_idem.
  - split; [|apply trim_blank].
    destruct (blank s) eqn:Hb; [done|]. intros Ht. by apply trim_not_blank in Ht.
  - done.
  - intros c rest Ht. rewrite Ht in Hskip.
    destruct (isWhiteSpace c) eqn:Hc; [|done]. by rewrite skipWhiteSpace_head in Hskip.
  - intros pre c Ht. by eapply trimEnd_last.
Qed.

(** X2 — [formatSymbol].  Formatting is idempotent, and a symbol that
    [validateSymbol] accepts never formats to the empty string. *)
Theorem formatSymbol_idempotent_and_nonempty (symbol : string) :
  asciiOnly symbol = true →
  formatSymbol (formatSymbol symbol) = formatSymbol symbol
  ∧ (validateSymbol symbol = None → formatSymbol symbol ≠ "").
Proof.
  intros _. unfold formatSymbol. split.
  - by rewrite toUpperCase_trim, toUpperCase_idem, trim_idem.
  - rewrite validateSymbol_spec. destruct (blank symbol) eqn:Hb; [done|].
    intros _. apply trim_not_blank. by rewrite toUpperCase_blank.
Qed.

Lemma includesChar_app c s t :
  includesChar c (s +:+ t) = includesChar c s || includesChar c t.
Proof.
  induction s as [|d s IH]; [done|].
  change (String d s +:+ t) with (String d (s +:+ t)).
  cbn [includesChar]. rewrite IH. by rewrite orb_assoc.
Qed.

(** X3 — [formatSymbolWithExchange] (EODHD).  The result always carries
    an exchange suffix (it contains a dot) and is never empty; a symbol
    that already has a dot is left alone, any other gets ".US"; applying
    the function again changes nothing. *)
Theorem formatSymbolWithExchange_adds_exchange_once (symbol : string) :
  includesChar "." (formatSymbolWithExchange symbol) = true
  ∧ formatSymbolWithExchange symbol ≠ ""
  ∧ formatSymbolWithExchange (formatSymbolWithExchange symbol)
    = formatSymbolWithExchange symbol
  ∧ (includesChar "." symbol = true → formatSymbolWithExchange symbol = symbol)
  ∧ (includesChar "." symbol = false → formatSymbolWithExchange symbol = symbol +:+ ".US").
Proof.
  assert (includesChar "." (formatSymbolWithExchange symbol) = true) as Hdot.
  { unfold formatSymbolWithExchange.
    destruct (includesChar "." symbol) eqn:Hd; [done|].
    by rewrite includesChar_app, orb_true_r. }
  split_and!.
  - done.
  - intros Hempty. by rewrite Hempty in Hdot.
  - unfold formatSymbolWithExchange at 1. by rewrite Hdot.
  - unfold formatSymbolWithExchange. by intros ->.
  - unfold formatSymbolWithExchange. by intros ->.
Qed.

(** X4 — what the route handlers accept, the providers accept.  A symbol
    matching [/^[A-Z]{1,5}$/] passes [validateSymbol], is left unchanged
    by [formatSymbol], and EODHD sends it with the ".US" suffix. *)
Theorem route_symbol_passes_provider_checks (symbol : string) :
  matchesSymbolFormat symbol = true →
  validateSymbol symbol = None
  ∧ formatSymbol symbol = symbol
  ∧ formatSymbolWithExchange symbol = symbol +:+ ".US"
  ∧ (1 ≤ String.length symbol ≤ 5)%nat.
Proof.
  unfold matchesSymbolFormat.
  intros [[Hlo Hhi]%andb_prop Hall]%andb_prop.
  apply Nat.leb_le in Hlo, Hhi.
  destruct (allUpperLetters_facts symbol Hall) as (Hup & Hts & Hte & Hdot & _ & Hblank).
  assert (symbol ≠ "") as Hne by (intros ->; cbn in Hlo; lia).
  split_and!.
  - by rewrite validateSymbol_spec, (Hblank Hne).
  - unfold formatSymbol, trim. by rewrite Hup, Hts, Hte.
  - unfold formatSymbolWithExchange. by rewrite Hdot.
  - done.
  - done.
Qed.

End Strings.

(** ** Provider classes: every call resolves, with a well-formed result *)

Section ProviderCalls.
Context `{Network}.

(** The invariant of [ProviderResponse] for a provider called [who]. *)
Local Notation "'wellFormed' who r" :=
  (provider r = who
   ∧ ((success r = true ∧ (∃ d, data r = Value d) ∧ error r = None)
      ∨ (success r = false ∧ data r = EmptyObject ∧ ∃ msg, error r = Some msg)))
  (at level 10, who at level 9, r at level 9).

Lemma symbolRequest_resolves {T} (who what symbol : string)
    (body : World → Fetched T * World) (w : World) :
  ∃ r w', symbolRequest who what symbol body w = (Resolved r, w') ∧ wellFormed who r.
Proof.
  unfold symbolRequest. destruct (validateSymbol symbol).
  - eexists _, _. split; [done|]. split; [done|]. right. by eauto.
  - destruct (body w) as [[d|msg|thrown] w']; eexists _, _; (split; [done|]);
      (split; [done|]); [left|right|right]; cbn; eauto.
Qed.

Lemma searchRequest_resolves {T} (who query : string)
    (body : World → Fetched T * World) (w : World) :
  ∃ r w', searchRequest who query body w = (Resolved r, w') ∧ wellFormed who r.
Proof.
  unfold searchRequest. destruct (_ || _).
  - eexists _, _. split; [done|]. split; [done|]. right. by eauto.
  - destruct (body w) as [[d|msg|thrown] w']; eexists _, _; (split; [done|]);
      (split; [done|]); [left|right|right]; cbn; eauto.
Qed.

Lemma notAvailable_resolves {T} (who msg : string) (w : World) :
  ∃ r w', notAvailable (T:=T) who msg w = (Resolved r, w') ∧ wellFormed who r.
Proof.
  eexists _, _. split; [done|]. split; [done|]. right. cbn. eauto.
Qed.

(** X5 — the five provider classes never throw.  Whatever the operation,
    its arguments and the behaviour of the network, a call on a provider
    resolves; the result names the provider, and it is either a success
    carrying data and no error, or a failure carrying an error text and
    [{}] as data.  Every exception of the network part is caught inside
    the method. *)
Theorem provider_call_resolves_well_formed {T}
    (n : ProviderName) (key : string) (op : Operation T) (w : World) :
  ∃ r w',
    invoke op (construct n key) w = (Resolved r, w')
    ∧ provider r = name (construct n key)
    ∧ ((success r = true ∧ (∃ d, data r = Value d) ∧ error r = None)
       ∨ (success r = false ∧ data r = EmptyObject ∧ ∃ msg, error r = Some msg)).
Proof.
  destruct n, op; cbn [invoke construct PolygonProvider FinnhubProvider EODHDProvider
    FMPProvider AlphaVantageProvider getQuote getMetadata getHoldings getSectorAllocation
    getCountryAllocation getPerformance getHistoricalData search name];
    first [ apply symbolRequest_resolves
          | apply searchRequest_resolves
          | apply notAvailable_resolves ].
Qed.

Lemma construct_resolves {T} (n : ProviderName) (key : string) (op : Operation T)
    (w : World) :
  ∃ r w', invoke op (construct n key) w = (Resolved r, w').
Proof.
  destruct n, op; cbn [invoke construct PolygonProvider FinnhubProvider EODHDProvider
    FMPProvider AlphaVantageProvider getQuote getMetadata getHoldings getSectorAllocation
    getCountryAllocation getPerformance getHistoricalData search name];
    match goal with
    | |- ∃ r w', symbolRequest ?who ?what ?symbol ?body w = _ =>
        destruct (symbolRequest_resolves who what symbol body w) as (r & w' & -> & _)
    | |- ∃ r w', searchRequest ?who ?query ?body w = _ =>
        destruct (searchRequest_resolves who query body w) as (r & w' & -> & _)
    | |- ∃ r w', @notAvailable _ _ ?T0 ?who ?msg w = _ =>
        destruct (notAvailable_resolves (T:=T0) who msg w) as (r & w' & -> & _)
    end;
    by eauto.
Qed.

End ProviderCalls.

(** ** More on one fallback call *)

Section ExecuteMore.
Context `{Network} {T : Type}.
Implicit Types (this : ETFProviderFactory) (method : IETFDataProvider → Promise T).

(** What holds of every call a registered provider can answer holds of
    every call of the trace. *)
Lemma loop_calls_sound (registry : gmap ProviderName IETFDataProvider) method capability
    (R : ProviderName → Settled T → Prop) rest (st : Chain T) :
  (∀ n p w, registry !! n = Some p → R n (method p w).1) →
  Forall (fun a => R a.1 a.2) (attempts st) →
  Forall (fun a => R a.1 a.2)
    (attempts (Factory.fallbackLoop registry method capability rest st).2).
Proof.
  intros Hall. revert rest st.
  apply (loop_ind registry method capability (fun rest st out =>
    Forall (fun a => R a.1 a.2) (attempts st) →
    Forall (fun a => R a.1 a.2) (attempts out.2))).
  - done.
  - done.
  - intros n p rest st result w Hp _ Hm _ Hst. cbn.
    apply Forall_app. split; [done|]. apply Forall_singleton. cbn.
    specialize (Hall n p (world st) Hp). by rewrite Hm in Hall.
  - intros n p rest st result w Hp _ Hm _ st' IH Hst. apply IH. subst st'. cbn.
    apply Forall_app. split; [done|]. apply Forall_singleton. cbn.
    specialize (Hall n p (world st) Hp). by rewrite Hm in Hall.
  - intros n p rest st thrown w Hp _ Hm st' IH Hst. apply IH. subst st'. cbn.
    apply Forall_app. split; [done|]. apply Forall_singleton. cbn.
    specialize (Hall n p (world st) Hp). by rewrite Hm in Hall.
Qed.

Lemma execute_calls_sound this method capability w (R : ProviderName → Settled T → Prop) :
  (∀ n p w, providers this !! n = Some p → R n (method p w).1) →
  Forall (fun a => R a.1 a.2) (calls (Factory.executeWithFallback this method capability w)).
Proof.
  intros Hall. rewrite execute_unfold. cbn [calls].
  by apply loop_calls_sound.
Qed.

(** With nobody capable, nobody is called and the factory says so. *)
Lemma execute_nobody_eligible this method capability w :
  (∀ n, n ∈ providerPriority this →
        ¬ eligible (providers this) (healthStatus this) capability n) →
  let o := Factory.executeWithFallback this method capability w in
  calls o = [] ∧ world_after o = w ∧ factory o = this
  ∧ response o = Factory.allProvidersFailed [] (Date_now w).
Proof.
  intros Hnone o.
  destruct (execute_trace this method capability w)
    as (Hsub & Hret & _ & _ & _ & Hw).
  fold o in Hsub, Hret, Hw.
  assert (calls o = []) as Hcalls.
  { assert (filter (eligible (providers this) (healthStatus this) capability)
              (providerPriority this) = []) as Hnil.
    { apply elem_of_nil_inv. intros n [He Hn]%list_elem_of_filter. by apply (Hnone n). }
    rewrite Hnil in Hsub. apply sublist_nil_r in Hsub.
    by apply fmap_nil_inv in Hsub. }
  split_and!; [done | by apply Hw | |].
  - apply execute_no_throw_frame. fold o. rewrite Hcalls.
    intros n thrown. apply not_elem_of_nil.
  - destruct Hret as [(n & earlier & Heq & _)|(_ & -> & _)].
    + rewrite Hcalls in Heq. by destruct earlier.
    + rewrite Hcalls, (Hw Hcalls). done.
Qed.

(** X6 — what a caller can count on from any fallback call.  At most one
    provider call is made per entry of the priority list, and when the
    list has no duplicate no provider is called twice.  The answer is
    either a success, and then it is the untouched result of the last
    provider called, or it is the factory's own failure object (provider
    "factory", [data] null, an error text): a provider's failure result is
    never handed back. *)
Theorem fallback_answer_and_cost this method capability (w : World) :
  let o := Factory.executeWithFallback this method capability w in
  (length (calls o) ≤ length (providerPriority this))%nat
  ∧ (NoDup (providerPriority this) → NoDup (Factory.invoked o))
  ∧ (success (response o) = true →
     ∃ n earlier, calls o = earlier ++ [(n, Resolved (response o))])
  ∧ (success (response o) = false →
     provider (response o) = "factory"
     ∧ data (response o) = Null
     ∧ ∃ text, error (response o) = Some ("All providers failed. Errors: " +:+ text)).
Proof.
  intros o.
  destruct (execute_trace this method capability w) as (Hsub & Hret & _).
  fold o in Hsub, Hret.
  assert (Factory.invoked o `sublist_of` providerPriority this) as Hsub'
    by (etrans; [exact Hsub | apply sublist_filter]).
  split_and!.
  - apply sublist_length in Hsub'. unfold Factory.invoked in Hsub'.
    by rewrite length_fmap in Hsub'.
  - intros Hnd. by eapply sublist_NoDup.
  - intros Hs. destruct Hret as [(n & earlier & Hcalls & _)|(_ & Hresp & _)].
    + by exists n, earlier.
    + rewrite Hresp in Hs. done.
  - intros Hs. destruct Hret as [(n & earlier & _ & Hok & _)|(_ & -> & _)].
    + congruence.
    + split_and!; [done..|]. by eexists.
Qed.

End ExecuteMore.

(** ** The constructor and the accessors *)

Section Construction.
Context `{Network}.
Implicit Types this : ETFProviderFactory.

Lemma new_health_lookup credentials n :
  healthStatus (Factory.new credentials) !! n
    = (fun _ => true) <$> Factory.present (credentialFor credentials n).
Proof.
  unfold Factory.new, Factory.setDefaultPriority, Factory.initializeProviders.
  cbn [healthStatus].
  destruct (Factory.present (cred_polygon credentials)) eqn:E1,
           (Factory.present (cred_finnhub credentials)) eqn:E2,
           (Factory.present (cred_eodhd credentials)) eqn:E3,
           (Factory.present (cred_fmp credentials)) eqn:E4,
           (Factory.present (cred_alphaVantage credentials)) eqn:E5;
    destruct n; cbn [credentialFor Factory.register healthStatus];
    rewrite ?E1, ?E2, ?E3, ?E4, ?E5; reflexivity.
Qed.

Lemma present_spec credential key :
  Factory.present credential = Some key ↔ credential = Some key ∧ key ≠ "".
Proof.
  unfold Factory.present. destruct credential as [k|]; [|by split; [|intros [? _]]].
  destruct (decide (k = "")) as [->|Hne]; split.
  - done.
  - by intros [[= <-] ?].
  - by intros [= <-].
  - by intros [[= <-] _].
Qed.

(** X7 — what the constructor builds.  A provider is registered exactly
    when its credential is a non-empty string, as an instance of its own
    class holding that key; it starts healthy; names without a key have
    no entry in either map.  The priority list is the default order
    polygon, eodhd, fmp, finnhub, alpha-vantage with the unregistered
    names removed, so it lists every registered provider exactly once. *)
Theorem constructor_registers_keyed_providers
    (credentials : ProviderCredentials) (n : ProviderName) :
  let this := Factory.new credentials in
  (∀ key, providers this !! n = Some (construct n key)
          ↔ credentialFor credentials n = Some key ∧ key ≠ "")
  ∧ (Factory.has this n ↔ ∃ key, credentialFor credentials n = Some key ∧ key ≠ "")
  ∧ healthStatus this !! n = (if decide (Factory.has this n) then Some true else None)
  ∧ (n ∈ providerPriority this ↔ Factory.has this n)
  ∧ NoDup (providerPriority this)
  ∧ providerPriority this `sublist_of` [polygon; eodhd; fmp; finnhub; alpha_vantage].
Proof.
  intros this.
  assert (Hhas : Factory.has this n
                 ↔ ∃ key, credentialFor credentials n = Some key ∧ key ≠ "").
  { unfold Factory.has, this. rewrite new_lookup.
    destruct (Factory.present _) as [key|] eqn:Hk.
    - apply present_spec in Hk. split; [by eauto|by eexists].
    - split; [by intros [? ?]|]. intros (key & Hc). apply present_spec in Hc.
      congruence. }
  split_and!.
  - intros key. unfold this. rewrite new_lookup, <- present_spec.
    destruct (Factory.present _) as [k|]; cbn; [|by split].
    split; [|by intros [= ->]].
    intros [= Heq]. f_equal.
    assert (apiKey <$> config (construct n k) = apiKey <$> config (construct n key)) as Hk
      by (by rewrite Heq).
    destruct n; cbn in Hk; congruence.
  - done.
  - unfold this at 1. rewrite new_health_lookup.
    destruct (decide (Factory.has this n)) as [Hy|Hn].
    + apply Hhas in Hy as (key & Hc). apply present_spec in Hc. by rewrite Hc.
    + destruct (Factory.present _) as [key|] eqn:Hk; [|done].
      destruct Hn. apply Hhas. exists key. by apply present_spec.
  - unfold this at 1. cbn [Factory.new Factory.setDefaultPriority providerPriority].
    rewrite list_elem_of_filter. unfold Factory.has at 1. cbn [providers].
    split; [by intros [? _]|]. intros Hy. split; [exact Hy|].
    destruct n; rewrite !elem_of_cons; tauto.
  - apply NoDup_filter.
    repeat (apply NoDup_cons; split;
            [rewrite ?not_elem_of_cons; split_and?; try done; apply not_elem_of_nil|]).
    apply NoDup_nil_2.
  - apply sublist_filter.
Qed.

Lemma keys_spec this n : n ∈ Factory.keys this ↔ is_Some (Factory.getProvider this n).
Proof.
  unfold Factory.keys, Factory.insertionOrder. rewrite list_elem_of_filter.
  unfold Factory.has, Factory.getProvider. split; [by intros [? _]|].
  intros Hn. split; [done|]. destruct n; rewrite !elem_of_cons; tauto.
Qed.

Lemma keys_NoDup this : NoDup (Factory.keys this).
Proof.
  apply NoDup_filter.
  repeat (apply NoDup_cons; split;
          [rewrite ?not_elem_of_cons; split_and?; try done; apply not_elem_of_nil|]).
  apply NoDup_nil_2.
Qed.

(** X8 — the accessors agree with the registry.  [hasProviders] is true
    exactly when some name is registered; [getAvailableProviders] lists
    each registered name once, and these are the names [getProvider]
    answers for.  When [hasProviders] is false, every data operation
    fails without calling anybody. *)
Theorem accessors_agree_with_registry this :
  (Factory.hasProviders this = true ↔ ∃ n, Factory.has this n)
  ∧ (∀ n, n ∈ Factory.getAvailableProviders this
          ↔ is_Some (Factory.getProvider this n))
  ∧ NoDup (Factory.getAvailableProviders this)
  ∧ length (Factory.getAvailableProviders this) = size (providers this)
  ∧ (Factory.hasProviders this = false →
     ∀ T (op : Operation T) w,
       let o := Factory.perform this op w in
       calls o = [] ∧ world_after o = w ∧ factory o = this
       ∧ response o = Factory.allProvidersFailed [] (Date_now w)).
Proof.
  assert (Hhas : Factory.hasProviders this = true ↔ ∃ n, Factory.has this n).
  { unfold Factory.hasProviders, Factory.has. rewrite bool_decide_eq_true. split.
    - intros Hsize.
      destruct (map_choose (providers this)) as (n & p & Hp).
      { apply map_size_non_empty_iff. lia. }
      exists n. by eexists.
    - intros (n & p & Hp).
      assert (size (providers this) ≠ 0)%nat; [|lia].
      apply map_size_non_empty_iff. intros Hempty. by rewrite Hempty in Hp. }
  split_and!.
  - done.
  - apply keys_spec.
  - apply keys_NoDup.
  - unfold Factory.getAvailableProviders.
    rewrite <- length_map_to_list, <- (length_fmap fst).
    apply Permutation_length, NoDup_Permutation;
      [apply keys_NoDup | apply NoDup_fst_map_to_list |].
    intros n. rewrite keys_spec, list_elem_of_fmap. unfold Factory.getProvider. split.
    + intros [p Hp]. exists (n, p). split; [done|]. by apply elem_of_map_to_list.
    + intros ([m p] & -> & Hin). apply elem_of_map_to_list in Hin. by eexists.
  - intros Hnone T op w. rewrite perform_fallback.
    apply execute_nobody_eligible. intros n _ (Hreg & _).
    assert (Factory.hasProviders this = true) as Hyes by (apply Hhas; by exists n).
    congruence.
Qed.

End Construction.

(** ** Factories built by the constructor *)

Section Constructed.
Context `{Network}.
Implicit Types this : ETFProviderFactory.

(** On a registry of constructed providers no call of a chain rejects. *)
Lemma constructed_calls_resolve {T} this credentials (op : Operation T) w :
  providers this = providers (Factory.new credentials) →
  ∀ n thrown, (n, Rejected thrown) ∉ calls (Factory.perform this op w).
Proof.
  intros Hreg n thrown Hin. rewrite perform_fallback in Hin.
  pose proof (execute_calls_sound this (invoke op) (keyOf op) w
                (fun _ settled => ∃ r, settled = Resolved r)) as Hall.
  rewrite Forall_forall in Hall. apply Hall in Hin; [by destruct Hin|].
  intros m p w0 Hp. rewrite Hreg, new_lookup in Hp.
  destruct (Factory.present _) as [key|]; [|done]. injection Hp as <-.
  destruct (construct_resolves m key op w0) as (r & w' & ->). by eexists.
Qed.

Lemma constructed_step this credentials w r :
  providers this = providers (Factory.new credentials) →
  healthStatus this = healthStatus (Factory.new credentials) →
  healthStatus (Factory.step this w r).1.1 = healthStatus (Factory.new credentials).
Proof.
  intros Hreg Hhealth. destruct r; try done.
  - cbn [Factory.step Factory.observe fst].
    pose proof (constructed_calls_resolve this credentials op w Hreg) as Hnone.
    rewrite perform_fallback in Hnone |- *.
    by rewrite (execute_no_throw_frame this (invoke op) (keyOf op) w Hnone).
  - cbn [Factory.step fst snd]. apply map_eq. intros n.
    destruct (healthCheck_lookup this n) as [_ ->].
    rewrite Hreg, <- Hhealth, Hhealth, new_lookup, new_health_lookup.
    destruct (Factory.present _) as [key|]; [|done]. cbn.
    by destruct (construct_config n key) as [c ->].
Qed.

(** X9 — with the five provider classes the health tracker never moves.
    After any sequence of requests on a factory built by the constructor,
    the registry and the health map are those the constructor made: every
    registered provider is still marked healthy, because no provider call
    ever throws.  Only [setProviderPriority] has changed the factory. *)
Theorem constructed_factory_stays_healthy
    (credentials : ProviderCredentials) (w : World) (rs : list Request) :
  let this := (Factory.run (Factory.new credentials) w rs).1.1 in
  providers this = providers (Factory.new credentials)
  ∧ healthStatus this = healthStatus (Factory.new credentials)
  ∧ (∀ n, Factory.has this n → healthStatus this !! n = Some true)
  ∧ ((∀ priority, SetProviderPriority priority ∉ rs) → this = Factory.new credentials).
Proof.
  intros this.
  assert (∀ start w,
            providers start = providers (Factory.new credentials) →
            healthStatus start = healthStatus (Factory.new credentials) →
            healthStatus (Factory.run start w rs).1.1
              = healthStatus (Factory.new credentials)
            ∧ ((∀ priority, SetProviderPriority priority ∉ rs) →
               providerPriority (Factory.run start w rs).1.1 = providerPriority start))
    as Hrun.
  { induction rs as [|r rs IH]; intros start w0 Hreg Hhealth; [done|].
    cbn [Factory.run].
    pose proof (constructed_step start credentials w0 r Hreg Hhealth) as Hstep.
    pose proof (step_providers start w0 r) as Hsame.
    pose proof (step_priority start w0 r) as Hprio.
    destruct (Factory.step start w0 r) as [[this1 w1] names1]. cbn [fst] in *.
    destruct (IH this1 w1) as [Hh Hp]; [congruence|done|].
    destruct (Factory.run this1 w1 rs) as [[this2 w2] names2]. cbn [fst] in *.
    split; [done|]. intros Hno. rewrite Hp, Hprio; [done| |].
    - intros priority ->. apply (Hno priority). left.
    - intros priority Hin. apply (Hno priority). by right. }
  destruct (Hrun (Factory.new credentials) w eq_refl eq_refl) as [Hh Hp].
  pose proof (run_providers (Factory.new credentials) w rs) as Hreg.
  fold this in Hh, Hp, Hreg. split_and!; [done|done| |].
  - intros n Hn. rewrite Hh, new_health_lookup.
    unfold Factory.has in Hn. rewrite Hreg, new_lookup in Hn.
    destruct (Factory.present _); [done|]. by destruct Hn.
  - intros Hno. specialize (Hp Hno).
    destruct this as [reg prio hs]. cbn in *. by subst.
Qed.

(** X10 — performance is never served.  No provider has the performance
    capability, so [getPerformance] on any factory, in any state, calls
    nobody, leaves the world and the factory as they are, and returns the
    aggregate failure with an empty list of messages. *)
Theorem getPerformance_never_succeeds this (symbol : string) (periods : list string)
    (w : World) :
  let o := Factory.getPerformance this symbol periods w in
  calls o = []
  ∧ world_after o = w
  ∧ factory o = this
  ∧ success (response o) = false
  ∧ provider (response o) = "factory"
  ∧ error (response o) = Some "All providers failed. Errors: ".
Proof.
  intros o. subst o. unfold Factory.getPerformance.
  destruct (execute_nobody_eligible this
              (fun p => getPerformance p symbol periods) key_performance w)
    as (Hcalls & Hw & Hf & Hresp).
  { intros n _ (_ & _ & Hcap). by destruct n. }
  rewrite Hresp. done.
Qed.

(** X11 — a blank search query.  Every provider's [search] answers an
    empty or white-space-only query (white space being what [trim]
    strips, the characters outside ASCII included) with the failure
    "Search query is required" without sending anything.  The factory does
    not check the query: it asks every registered, healthy provider in
    priority order and returns the aggregate of these failures; health map
    and world are unchanged. *)
Theorem blank_query_fails_in_each_provider
    (credentials : ProviderCredentials) (priority : list ProviderName)
    (healthMap : gmap ProviderName bool) (query : string) (limit : option Z) (w : World) :
  blank query = true →
  (∀ n key,
     search (construct n key) query (default 10 limit) w
       = (Resolved (createErrorResponse (name (construct n key))
                      "Search query is required" w), w))
  ∧ let this := {| providers := providers (Factory.new credentials);
                   providerPriority := priority;
                   healthStatus := healthMap |} in
    let o := Factory.search this query limit w in
    Factory.invoked o = filter (eligible (providers this) healthMap key_search) priority
    ∧ world_after o = w
    ∧ factory o = this
    ∧ response o
      = Factory.allProvidersFailed
          ((fun n => ProviderName_toString n +:+ ": Search query is required")
           <$> Factory.invoked o)
          (Date_now w).
Proof.
  intros Hb.
  assert (Hprov : ∀ n key,
            search (construct n key) query (default 10 limit) w
              = (Resolved (createErrorResponse (name (construct n key))
                             "Search query is required" w), w)).
  { intros n key. destruct n; cbn; unfold searchRequest;
      by rewrite (trim_blank _ Hb), orb_true_r. }
  split; [exact Hprov|].
  intros this o. subst o. unfold Factory.search. rewrite execute_unfold.
  set (reply := fun n : ProviderName =>
         createErrorResponse (T:=list SearchResult) (name (construct n ""))
           "Search query is required" w).
  rewrite (loop_all_fail_quietly (providers this)
             (fun p => search p query (default 10 limit)) key_search w reply);
    [| |done..].
  - unfold Factory.invoked. cbn [response factory world_after calls fst snd errors
      health world attempts app healthStatus providers providerPriority this].
    assert (Hnames : ∀ l : list ProviderName,
              ((fun n => (n, Resolved (reply n))) <$> l).*1 = l)
      by (induction l as [|? ? IHl]; cbn; [done|by rewrite IHl]).
    rewrite Hnames. split_and!; done.
  - intros n p Hp Hc. subst this. cbn [providers] in Hp.
    rewrite new_lookup in Hp. destruct (Factory.present _) as [key|]; [|done].
    injection Hp as <-. rewrite (Hprov n key). unfold reply. by destruct n.
Qed.

(** X12 — [isHealthy] is a real probe, and [healthCheck] does not use it.
    On a provider of any class, [isHealthy] makes exactly the call
    [search('SPY', 1)] and returns the [success] field of its result; it
    never throws.  So it reports whether the search went through, not
    whether anything was found: an empty list of results counts as
    healthy, a failure result (a request that failed) as unhealthy.
    [healthCheck] marks the same provider healthy whatever that probe
    would say. *)
Theorem isHealthy_probes_with_a_search (credentials : ProviderCredentials)
    (n : ProviderName) (key : string) (w : World) :
  providers (Factory.new credentials) !! n = Some (construct n key) →
  (∃ r, search (construct n key) "SPY" 1 w = (Resolved r, (fetchSearch n key "SPY" 1 w).2)
        ∧ isHealthy (construct n key) w = (success r, (fetchSearch n key "SPY" 1 w).2))
  ∧ isHealthy (construct n key) w
    = (match (fetchSearch n key "SPY" 1 w).1 with
       | Found _ => true
       | NoData _ | Failed _ => false
       end,
       (fetchSearch n key "SPY" 1 w).2)
  ∧ ((fetchSearch n key "SPY" 1 w).1 = Found [] →
     (isHealthy (construct n key) w).1 = true)
  ∧ healthStatus (Factory.healthCheck (Factory.new credentials)).2 !! n = Some true.
Proof.
  intros Hp.
  assert (isHealthy (construct n key) w
          = (match (fetchSearch n key "SPY" 1 w).1 with
             | Found _ => true
             | NoData _ | Failed _ => false
             end,
             (fetchSearch n key "SPY" 1 w).2)) as Hprobe.
  { unfold isHealthy.
    destruct n; cbn; unfold searchRequest; cbn;
      by destruct (fetchSearch _ key "SPY" 1 w) as [[d|msg|thrown] w']. }
  split_and!.
  - unfold isHealthy.
    destruct n; cbn; unfold searchRequest; cbn;
      destruct (fetchSearch _ key "SPY" 1 w) as [[d|msg|thrown] w']; by eexists.
  - exact Hprobe.
  - intros Hfound. by rewrite Hprobe, Hfound.
  - destruct (healthCheck_lookup (Factory.new credentials) n) as [_ ->].
    rewrite Hp. by destruct (construct_config n key) as [c ->].
Qed.

(** X13 — [setProviderPriority] replaces, it does not merge.  The list
    kept is the argument without its unregistered names, duplicates and
    order preserved; a second call forgets the first; setting the list a
    factory already has changes nothing once it has been set; and a list
    without any registered name (the empty list in particular) turns every
    data operation into an immediate failure with no provider call. *)
Theorem setProviderPriority_replaces this (first second : list ProviderName) :
  Factory.setProviderPriority (Factory.setProviderPriority this first) second
    = Factory.setProviderPriority this second
  ∧ Factory.setProviderPriority (Factory.setProviderPriority this first)
      (providerPriority (Factory.setProviderPriority this first))
    = Factory.setProviderPriority this first
  ∧ (∀ n, Factory.has this n →
          count_occ ProviderName_eq_dec
            (providerPriority (Factory.setProviderPriority this first)) n
          = count_occ ProviderName_eq_dec first n)
  ∧ ((∀ n, n ∈ first → ¬ Factory.has this n) →
     ∀ T (op : Operation T) w,
       let o := Factory.perform (Factory.setProviderPriority this first) op w in
       calls o = [] ∧ world_after o = w
       ∧ response o = Factory.allProvidersFailed [] (Date_now w)).
Proof.
  split_and!.
  - done.
  - unfold Factory.setProviderPriority. cbn [providers providerPriority healthStatus].
    f_equal. unfold Factory.has. cbn [providers].
    induction first as [|n first IH]; [done|].
    rewrite filter_cons. destruct (decide (is_Some (providers this !! n))) as [Hy|Hn].
    + rewrite filter_cons_True by done. by rewrite IH.
    + done.
  - intros n Hn. unfold Factory.setProviderPriority. cbn [providerPriority].
    induction first as [|m first IH]; [done|].
    rewrite filter_cons. destruct (decide (Factory.has this m)) as [Hy|Hno].
    + cbn [count_occ]. destruct (ProviderName_eq_dec m n); by rewrite IH.
    + cbn [count_occ]. destruct (ProviderName_eq_dec m n) as [->|]; [done|by rewrite IH].
  - intros Hnone T op w. rewrite perform_fallback.
    destruct (execute_nobody_eligible (Factory.setProviderPriority this first)
                (invoke op) (keyOf op) w) as (Hc & Hw & _ & Hr); [|done].
    intros n Hn _. cbn [Factory.setProviderPriority providerPriority] in Hn.
    apply list_elem_of_filter in Hn as [Hy Hin]. by apply (Hnone n).
Qed.

End Constructed.

(** ** The default factory and the route handlers *)

Section Serving.
Context `{Network}.

Lemma default_factory_constructed env (defaultFactory : option ETFProviderFactory) :
  fromConstructor defaultFactory →
  (∃ credentials,
     providers (Api.getDefaultETFProviderFactory env defaultFactory).1
       = providers (Factory.new credentials))
  ∧ (Api.getDefaultETFProviderFactory env defaultFactory).2
    = Some (Api.getDefaultETFProviderFactory env defaultFactory).1.
Proof.
  destruct defaultFactory as [f|]; cbn; [done|].
  intros _. split; [|done]. by eexists.
Qed.

Lemma unsupported_fails {T} n key (op : Operation T) w :
  capabilityAt (getProviderCapabilities n) (keyOf op) = false →
  ∃ r, invoke op (construct n key) w = (Resolved r, w) ∧ success r = false.
Proof.
  intros Hc. destruct n, op; cbn in Hc; try discriminate; cbn;
    eexists; (split; [reflexivity|done]).
Qed.

Lemma construct_success_has_data {T} n key (op : Operation T) w r w' :
  invoke op (construct n key) w = (Resolved r, w') →
  provider r = name (construct n key)
  ∧ (success r = true → ∃ d, data r = Value d).
Proof.
  assert (∃ r0 w0,
            invoke op (construct n key) w = (Resolved r0, w0)
            ∧ provider r0 = name (construct n key)
            ∧ ((success r0 = true ∧ (∃ d, data r0 = Value d) ∧ error r0 = None)
               ∨ (success r0 = false ∧ data r0 = EmptyObject
                  ∧ ∃ msg, error r0 = Some msg))) as (r0 & w0 & -> & Hwho & Hshape).
  { destruct n, op; cbn [invoke construct PolygonProvider FinnhubProvider EODHDProvider
      FMPProvider AlphaVantageProvider getQuote getMetadata getHoldings
      getSectorAllocation getCountryAllocation getPerformance getHistoricalData search
      name];
      first [ apply symbolRequest_resolves
            | apply searchRequest_resolves
            | apply notAvailable_resolves ]. }
  intros [= <- <-]. split; [done|].
  intros Hs. destruct Hshape as [(_ & Hd & _)|(Hf & _)]; [done|congruence].
Qed.

Lemma answer_status {T} (result : ProviderResponse T) echo okHeaders :
  (success result = true
   ∧ Routes.answer result echo okHeaders
     = {| status := 200;
          json := DataJson (data result) (provider result) (timestamp result) echo;
          headers := okHeaders |})
  ∨ (success result = false
     ∧ Routes.answer result echo okHeaders
       = {| status := 404; json := ErrorJson (error result); headers := [] |}).
Proof. unfold Routes.answer. destruct (success result); [by left|by right]. Qed.

(** What [dispatch] answers on a default factory made by the constructor. *)
Lemma dispatch_spec {T} (op : Operation T) providerParam echo okHeaders env
    (defaultFactory : option ETFProviderFactory) (w : World) :
  fromConstructor defaultFactory →
  let out := Routes.dispatch op providerParam echo okHeaders env defaultFactory w in
  let f := (Api.getDefaultETFProviderFactory env defaultFactory).1 in
  fromConstructor out.1.2
  ∧ (∃ kept, out.1.2 = Some kept ∧ providers kept = providers f)
  ∧ ((Factory.hasProviders f = false
      ∧ out.1.1 = Routes.errorResponse 503 "No data providers configured"
      ∧ out.2 = w)
     ∨ (Factory.hasProviders f = true
        ∧ ∃ asked,
            given providerParam = Some asked
            ∧ ProviderName_ofString asked ≫= Factory.getProvider f = None
            ∧ out.1.1 = Routes.errorResponse 400
                          ("Provider '" +:+ asked +:+ "' not available")
            ∧ out.2 = w)
     ∨ (Factory.hasProviders f = true
        ∧ ∃ e, out.1.1 = {| status := 404; json := ErrorJson e; headers := [] |})
     ∨ (Factory.hasProviders f = true
        ∧ ∃ n key d at_time,
            Factory.has f n
            ∧ capabilityAt (getProviderCapabilities n) (keyOf op) = true
            ∧ out.1.1 = {| status := 200;
                           json := DataJson (Value d) (name (construct n key)) at_time echo;
                           headers := okHeaders |})).
Proof.
  intros Hst out f. subst out.
  destruct (default_factory_constructed env defaultFactory Hst) as [[c Hreg] Hkept].
  fold f in Hreg, Hkept. unfold Routes.dispatch.
  destruct (Api.getDefaultETFProviderFactory env defaultFactory) as [f0 st1] eqn:Hd.
  cbn [fst snd] in *. subst f st1.
  destruct (Factory.hasProviders f0) eqn:Hhas; cbn [negb].
  { (* past the 503 guard *)
    destruct (given providerParam) as [asked|] eqn:Hasked.
    - destruct (ProviderName_ofString asked ≫= Factory.getProvider f0)
        as [specificProvider|] eqn:Hget.
      + (* a direct call *)
        destruct (ProviderName_ofString asked) as [n|] eqn:Hn; [|done].
        cbn in Hget. unfold Factory.getProvider in Hget.
        pose proof Hget as Hp. rewrite Hreg, new_lookup in Hp.
        destruct (Factory.present _) as [key|]; [|done]. injection Hp as <-.
        destruct (construct_resolves n key op w) as (r & w' & Hcall). rewrite Hcall.
        destruct (construct_success_has_data n key op w r w' Hcall) as [Hwho Hdata].
        cbn [fst snd]. split_and!; [by exists c | by eexists |].
        destruct (answer_status r echo okHeaders) as [[Hs ->]|[Hs ->]].
        * right. right. right. split; [done|].
          destruct (Hdata Hs) as [d Hd']. exists n, key, d, (timestamp r).
          split_and!; [by eexists| |by rewrite Hd', Hwho].
          destruct (capabilityAt _ _) eqn:Hc; [done|].
          destruct (unsupported_fails n key op w Hc) as (r' & Hcall' & Hf).
          rewrite Hcall in Hcall'. injection Hcall' as <- _. congruence.
        * right. right. left. split; [done|]. by eexists.
      + cbn [fst snd]. split_and!; [by exists c | by eexists |].
        right. left. split; [done|]. by exists asked.
    - (* through the fallback *)
      cbn [fst snd]. rewrite perform_fallback.
      set (o := Factory.executeWithFallback f0 (invoke op) (keyOf op) w).
      destruct (execute_frame f0 (invoke op) (keyOf op) w) as [Hsame _]. fold o in Hsame.
      split_and!; [exists c; congruence | by eexists |].
      destruct (answer_status (response o) echo okHeaders) as [[Hs ->]|[Hs ->]].
      + right. right. right. split; [done|].
        destruct (execute_trace f0 (invoke op) (keyOf op) w) as (Hsub & Hret & _).
        fold o in Hsub, Hret.
        destruct Hret as [(n & earlier & Hcalls & _)|(_ & Hresp & _)];
          [|by rewrite Hresp in Hs].
        assert (n ∈ Factory.invoked o) as Hn.
        { unfold Factory.invoked. rewrite Hcalls, fmap_app, elem_of_app. right. left. }
        eapply elem_of_sublist in Hn; [|exact Hsub].
        apply list_elem_of_filter in Hn as [(Hregd & _ & Hcap) _].
        pose proof (execute_calls_sound f0 (invoke op) (keyOf op) w
                      (fun m settled =>
                         ∀ r, settled = Resolved r →
                              ∃ key, provider r = name (construct m key)
                                     ∧ (success r = true → ∃ d, data r = Value d)))
          as Hall.
        rewrite Forall_forall in Hall.
        destruct (Hall) with (x := (n, Resolved (response o))) (r := response o)
          as (key & Hwho & Hdata); [| |done|].
        * intros m p w0 Hp r Hr. rewrite Hreg, new_lookup in Hp.
          destruct (Factory.present _) as [key|]; [|done]. injection Hp as <-.
          destruct (invoke op (construct m key) w0) as [settled w1] eqn:Hcall.
          cbn in Hr. subst settled. exists key.
          by eapply construct_success_has_data.
        * fold o. rewrite Hcalls, elem_of_app. right. left.
        * destruct (Hdata Hs) as [d Hd']. exists n, key, d, (timestamp (response o)).
          split_and!; [done|done|by rewrite Hd', Hwho].
      + right. right. left. split; [done|]. by eexists. }
  (* no provider at all *)
  cbn [fst snd]. split_and!; [by exists c | by eexists |]. by left.
Qed.

End Serving.

Section Routing.
Context `{Network}.

Lemma toUpperCase_length s : String.length (toUpperCase s) = String.length s.
Proof. induction s as [|c s IH]; [done|]. cbn. by rewrite IH. Qed.

Lemma toUpperCase_letters s : allUpperLetters (toUpperCase s) = allLetters s.
Proof.
  induction s as [|c s IH]; [done|]. cbn [toUpperCase allUpperLetters allLetters].
  rewrite IH. f_equal. by destruct c as [[] [] [] [] [] [] [] []].
Qed.

Lemma accepted_symbol_spec s :
  matchesSymbolFormat (toUpperCase s) = true
  ↔ (1 ≤ String.length s ≤ 5)%nat ∧ allLetters s = true.
Proof.
  unfold matchesSymbolFormat. rewrite toUpperCase_length, toUpperCase_letters.
  rewrite !andb_true_iff, !Nat.leb_le. tauto.
Qed.

Lemma hasProviders_new credentials :
  Factory.hasProviders (Factory.new credentials) = true
  ↔ ∃ n key, credentialFor credentials n = Some key ∧ key ≠ "".
Proof.
  unfold Factory.hasProviders. rewrite bool_decide_eq_true. split.
  - intros Hsize.
    destruct (map_choose (providers (Factory.new credentials))) as (n & p & Hp).
    { apply map_size_non_empty_iff. lia. }
    rewrite new_lookup in Hp.
    destruct (Factory.present _) as [key|] eqn:Hk; [|done].
    exists n, key. by apply present_spec.
  - intros (n & key & Hk). apply present_spec in Hk.
    assert (size (providers (Factory.new credentials)) ≠ 0)%nat; [|lia].
    apply map_size_non_empty_iff. intros Hempty.
    pose proof (new_lookup credentials n) as Hl. by rewrite Hempty, Hk in Hl.
Qed.

(** X14 — the default factory is built once.  The first call of
    [getDefaultETFProviderFactory] builds the factory from the environment
    of that moment; every later call returns that same factory, whatever
    the environment has become, until [resetDefaultETFProviderFactory].
    The factory built has providers exactly when one of the five variables
    is a non-empty string. *)
Theorem default_factory_is_built_once (env later : Environment)
    (defaultFactory : option ETFProviderFactory) :
  let first := Api.getDefaultETFProviderFactory env defaultFactory in
  first.2 = Some first.1
  ∧ Api.getDefaultETFProviderFactory later first.2 = first
  ∧ (defaultFactory = None → first.1 = Api.createETFProviderFactory env)
  ∧ Api.getDefaultETFProviderFactory later
      (Api.resetDefaultETFProviderFactory first.2)
    = (Api.createETFProviderFactory later, Some (Api.createETFProviderFactory later))
  ∧ (Factory.hasProviders (Api.createETFProviderFactory env) = true
     ↔ ∃ key, key ≠ ""
              ∧ (POLYGON_API_KEY env = Some key ∨ FINNHUB_API_KEY env = Some key
                 ∨ EODHD_API_KEY env = Some key ∨ FMP_API_KEY env = Some key
                 ∨ ALPHA_VANTAGE_API_KEY env = Some key)).
Proof.
  intros first. subst first. split_and!.
  - by destruct defaultFactory.
  - by destruct defaultFactory.
  - by intros ->.
  - done.
  - unfold Api.createETFProviderFactory. rewrite hasProviders_new. split.
    + intros (n & key & Hk & Hne). exists key. split; [done|].
      destruct n; cbn in Hk; tauto.
    + intros (key & Hne & Hk).
      destruct Hk as [Hk|[Hk|[Hk|[Hk|Hk]]]];
        [exists polygon|exists finnhub|exists eodhd|exists fmp|exists alpha_vantage];
        by exists key.
Qed.

(** X15 — a malformed symbol costs nothing.  For a symbol parameter made
    of ASCII characters: the three handlers accept it exactly when it is
    one to five letters, in either case.  A missing or empty symbol gets
    400 "Symbol parameter is required", any other rejected symbol 400
    "Invalid symbol format"; in both cases the default factory is not
    even created and nothing is sent. *)
Theorem routes_reject_malformed_symbol
    (symbolParam providerParam periodsParam : option string) (env : Environment)
    (defaultFactory : option ETFProviderFactory) (w : World) :
  (∀ symbol, symbolParam = Some symbol → asciiOnly symbol = true) →
  (∀ symbol, symbolParam = Some symbol →
             (matchesSymbolFormat (toUpperCase symbol) = true
              ↔ (1 ≤ String.length symbol ≤ 5)%nat ∧ allLetters symbol = true))
  ∧ (given symbolParam = None →
     Routes.countriesGET symbolParam providerParam env defaultFactory w
       = (Routes.errorResponse 400 "Symbol parameter is required", defaultFactory, w)
     ∧ Routes.metadataGET symbolParam providerParam env defaultFactory w
       = (Routes.errorResponse 400 "Symbol parameter is required", defaultFactory, w)
     ∧ Routes.performanceGET symbolParam providerParam periodsParam env defaultFactory w
       = (Routes.errorResponse 400 "Symbol parameter is required", defaultFactory, w))
  ∧ (∀ symbol,
       given symbolParam = Some symbol →
       ¬ ((1 ≤ String.length symbol ≤ 5)%nat ∧ allLetters symbol = true) →
       Routes.countriesGET symbolParam providerParam env defaultFactory w
         = (Routes.errorResponse 400 "Invalid symbol format", defaultFactory, w)
       ∧ Routes.metadataGET symbolParam providerParam env defaultFactory w
         = (Routes.errorResponse 400 "Invalid symbol format", defaultFactory, w)
       ∧ Routes.performanceGET symbolParam providerParam periodsParam env
           defaultFactory w
         = (Routes.errorResponse 400 "Invalid symbol format", defaultFactory, w)).
Proof.
  intros _. split_and!.
  - intros symbol _. apply accepted_symbol_spec.
  - intros Hnone. unfold Routes.countriesGET, Routes.metadataGET, Routes.performanceGET.
    by rewrite Hnone.
  - intros symbol Hsome Hbad.
    unfold Routes.countriesGET, Routes.metadataGET, Routes.performanceGET.
    rewrite Hsome.
    destruct (matchesSymbolFormat (toUpperCase symbol)) eqn:Hm; [|done].
    by apply accepted_symbol_spec in Hm.
Qed.



End Routing.

Section RoutingMore.
Context `{Network}.

Lemma dispatch_performance symbol periods providerParam echo okHeaders env
    (defaultFactory : option ETFProviderFactory) (w : World) :
  fromConstructor defaultFactory →
  let out := Routes.dispatch (OpPerformance symbol periods) providerParam echo okHeaders
               env defaultFactory w in
  (status out.1.1 = 400 ∨ status out.1.1 = 404 ∨ status out.1.1 = 503)
  ∧ (∃ e, json out.1.1 = ErrorJson e)
  ∧ out.2 = w
  ∧ fromConstructor out.1.2.
Proof.
  intros Hst out.
  destruct (dispatch_spec (OpPerformance symbol periods) providerParam echo okHeaders
              env defaultFactory w Hst) as (Hinv & _ & _).
  fold out in Hinv. split_and!; [| | |done]; subst out;
    destruct (default_factory_constructed env defaultFactory Hst) as [[c Hreg] _];
    unfold Routes.dispatch;
    destruct (Api.getDefaultETFProviderFactory env defaultFactory) as [f st1];
    cbn [fst] in Hreg;
    (destruct (Factory.hasProviders f); cbn [negb fst snd];
     [|by eauto]);
    (destruct (given providerParam) as [asked|];
     [ destruct (ProviderName_ofString asked ≫= Factory.getProvider f)
         as [p|] eqn:Hget; [|by eauto];
       destruct (ProviderName_ofString asked) as [n|]; [|done];
       cbn in Hget; unfold Factory.getProvider in Hget;
       rewrite Hreg, new_lookup in Hget;
       destruct (Factory.present _) as [key|]; [|done]; injection Hget as <-;
       destruct (unsupported_fails n key (OpPerformance symbol periods) w)
         as (r & -> & Hf); [by destruct n|];
       unfold Routes.answer; rewrite Hf; cbn; by eauto
     | cbn [Factory.perform];
       destruct (execute_nobody_eligible f
                   (fun p => getPerformance p symbol periods) key_performance w)
         as (_ & Hw & _ & Hresp); [intros n _ (_ & _ & Hcap); by destruct n|];
       unfold Factory.getPerformance; cbn [fst snd]; rewrite ?Hresp, ?Hw;
       unfold Routes.answer; cbn; by eauto ]).
Qed.

(** X17 — the performance route never answers with data.  Whatever the
    parameters, the environment and the state of the default factory, the
    handler of [/api/etf/performance] answers 400, 404 or 503 with an
    error object, and sends nothing to any data source: every provider's
    [getPerformance] is a stub and no provider has the capability. *)
Theorem performance_route_never_serves_data
    (symbolParam providerParam periodsParam : option string) (env : Environment)
    (defaultFactory : option ETFProviderFactory) (w : World) :
  fromConstructor defaultFactory →
  let out := Routes.performanceGET symbolParam providerParam periodsParam env
               defaultFactory w in
  (status out.1.1 = 400 ∨ status out.1.1 = 404 ∨ status out.1.1 = 503)
  ∧ (∃ e, json out.1.1 = ErrorJson e)
  ∧ out.2 = w
  ∧ fromConstructor out.1.2.
Proof.
  intros Hst out. subst out. unfold Routes.performanceGET.
  destruct (given symbolParam) as [symbol|]; [|cbn; by eauto 10].
  destruct (matchesSymbolFormat (toUpperCase symbol)); cbn [negb]; [|cbn; by eauto 10].
  destruct (bool_decide _); [cbn; by eauto 10|].
  by apply dispatch_performance.
Qed.

(** X18 — what the country-allocation route can answer.  The status is
    200, 400, 404 or 503, never 500.  A 200 carries data, the upper-cased
    symbol, the two-hour cache headers, and names Finnhub, EODHD or
    Financial Modeling Prep as its source: Polygon.io and Alpha Vantage
    can never be the source, even when asked for by name.  Any other
    status carries an error object and no cache header. *)
Theorem countries_route_answers
    (symbolParam providerParam : option string) (env : Environment)
    (defaultFactory : option ETFProviderFactory) (w : World) :
  (∀ symbol, symbolParam = Some symbol → asciiOnly symbol = true) →
  fromConstructor defaultFactory →
  let out := Routes.countriesGET symbolParam providerParam env defaultFactory w in
  fromConstructor out.1.2
  ∧ ((status out.1.1 = 200
      ∧ headers out.1.1 = Routes.cacheHeaders "7200" "14400"
      ∧ ∃ symbol d source at_time,
          symbolParam = Some symbol
          ∧ json out.1.1 = DataJson (Value d) source at_time (Some (toUpperCase symbol))
          ∧ source ∈ ["Finnhub"; "EODHD"; "Financial Modeling Prep"])
     ∨ ((status out.1.1 = 400 ∨ status out.1.1 = 404 ∨ status out.1.1 = 503)
        ∧ headers out.1.1 = []
        ∧ ∃ e, json out.1.1 = ErrorJson e)).
Proof.
  intros _ Hst out. subst out. unfold Routes.countriesGET.
  destruct (given symbolParam) as [symbol|] eqn:Hsym;
    [|cbn; split; [done|right; by eauto 10]].
  assert (symbolParam = Some symbol) as Hparam.
  { unfold given in Hsym. destruct symbolParam as [s|]; [|done].
    by destruct (decide (s = "")); simplify_eq. }
  destruct (matchesSymbolFormat (toUpperCase symbol)); cbn [negb];
    [|cbn; split; [done|right; by eauto 10]].
  destruct (dispatch_spec (OpCountryAllocation (toUpperCase symbol)) providerParam
              (Some (toUpperCase symbol)) (Routes.cacheHeaders "7200" "14400")
              env defaultFactory w Hst) as (Hinv & _ & Hcases).
  split; [done|].
  destruct Hcases as [(_ & -> & _)|[(_ & asked & _ & _ & -> & _)|[(_ & e & ->)|Hok]]];
    [right; cbn; by eauto 10..|].
  destruct Hok as (_ & n & key & d & at_time & _ & Hcap & ->).
  left. cbn [status headers json]. split_and!; [done|done|].
  exists symbol, d, (name (construct n key)), at_time. split_and!; [done|done|].
  destruct n; cbn in Hcap; try discriminate; cbn; rewrite !elem_of_cons; tauto.
Qed.


End RoutingMore.

(** ** The health check on any registry *)

(** X20 — what [healthCheck] looks at.  For any registry, the map
    returned has one entry per registered provider, [true] exactly when
    the provider object has a [config]; the health map is overwritten with
    these entries and keeps the others; registry and priority list are
    untouched.  Checking twice is checking once. *)
Theorem healthCheck_reports_config_only `{Network} (this : ETFProviderFactory) :
  let checked := Factory.healthCheck this in
  (∀ n, checked.1 !! n = None ↔ providers this !! n = None)
  ∧ (∀ n p, providers this !! n = Some p →
            (checked.1 !! n = Some true ↔ is_Some (config p))
            ∧ healthStatus checked.2 !! n = checked.1 !! n)
  ∧ (∀ n, providers this !! n = None →
          healthStatus checked.2 !! n = healthStatus this !! n)
  ∧ providers checked.2 = providers this
  ∧ providerPriority checked.2 = providerPriority this
  ∧ Factory.healthCheck checked.2 = checked.
Proof.
  intros checked. subst checked. split_and!.
  - intros n. destruct (healthCheck_lookup this n) as [-> _].
    by destruct (providers this !! n).
  - intros n p Hp. destruct (healthCheck_lookup this n) as [-> ->]. rewrite Hp. cbn.
    split; [|done]. destruct (config p) as [c|].
    + split; [intros _; by eexists | done].
    + split; [done | by intros [? ?]].
  - intros n Hp. destruct (healthCheck_lookup this n) as [_ ->]. by rewrite Hp.
  - done.
  - done.
  - unfold Factory.healthCheck, Factory.healthResults.
    cbn [snd providers providerPriority healthStatus].
    f_equal. f_equal. apply map_eq. intros k.
    fold (Factory.healthResults this).
    rewrite !foldl_insert_lookup
      by (rewrite healthResults_keys; apply NoDup_fst_map_to_list).
    by destruct (list_to_map (Factory.healthResults this) !! k).
Qed.

(** * Worked instances of the further properties *)

Section WorkedMore.
#[local] Existing Instances Fixtures.entities Fixtures.network.

Lemma validateSymbol_rejects_exactly_blank_witness :
  asciiOnly " a b " = true
  ∧ blank " a b " = false
  ∧ validateSymbol " a b " = None.
Proof.
  split_and!; [reflexivity..|].
  destruct (validateSymbol_rejects_exactly_blank " a b " eq_refl) as (_ & [_ Hpass] & _).
  exact (Hpass eq_refl).
Defined.

Lemma trim_is_a_normal_form_witness :
  asciiOnly "  spy  " = true
  ∧ trim "  spy  " = "spy"
  ∧ trim (trim "  spy  ") = trim "  spy  ".
Proof.
  split_and!; [reflexivity..|].
  destruct (trim_is_a_normal_form "  spy  " eq_refl) as (Hidem & _). exact Hidem.
Defined.

Lemma formatSymbol_idempotent_and_nonempty_witness :
  asciiOnly " spy " = true
  ∧ validateSymbol " spy " = None
  ∧ formatSymbol " spy " = "SPY"
  ∧ formatSymbol " spy " ≠ "".
Proof.
  split_and!; [reflexivity..|].
  destruct (formatSymbol_idempotent_and_nonempty " spy " eq_refl) as [_ Hne].
  exact (Hne eq_refl).
Defined.

Lemma formatSymbolWithExchange_adds_exchange_once_witness :
  includesChar "." "VWCE.DE" = true
  ∧ formatSymbolWithExchange "VWCE.DE" = "VWCE.DE"
  ∧ includesChar "." "SPY" = false
  ∧ formatSymbolWithExchange "SPY" = "SPY.US".
Proof.
  destruct (formatSymbolWithExchange_adds_exchange_once "VWCE.DE")
    as (_ & _ & _ & Hkeep & _).
  destruct (formatSymbolWithExchange_adds_exchange_once "SPY")
    as (_ & _ & _ & _ & Hadd).
  split_and!; [reflexivity | exact (Hkeep eq_refl) | reflexivity | exact (Hadd eq_refl)].
Defined.

Lemma route_symbol_passes_provider_checks_witness :
  matchesSymbolFormat "SPY" = true
  ∧ validateSymbol "SPY" = None
  ∧ formatSymbol "SPY" = "SPY"
  ∧ formatSymbolWithExchange "SPY" = "SPY.US".
Proof.
  destruct (route_symbol_passes_provider_checks "SPY" eq_refl) as (Hv & Hf & He & _).
  split_and!; [reflexivity | exact Hv | exact Hf | exact He].
Defined.

Lemma fallback_answer_and_cost_witness :
  let o := Factory.executeWithFallback Fixtures.scenario1
             (invoke (OpQuote "SPY")) key_quote 0%nat in
  NoDup (providerPriority Fixtures.scenario1)
  ∧ NoDup (Factory.invoked o)
  ∧ (length (calls o) ≤ 2)%nat.
Proof.
  intros o.
  assert (NoDup (providerPriority Fixtures.scenario1)) as Hnd.
  { apply NoDup_cons. split; [|apply NoDup_singleton].
    intros Hin. apply list_elem_of_singleton in Hin. discriminate Hin. }
  pose proof (fallback_answer_and_cost (T:=ETFQuote) Fixtures.scenario1
                (invoke (OpQuote "SPY")) key_quote 0%nat) as Hthm.
  cbv zeta in Hthm. destruct Hthm as (Hlen & Hcalls & _).
  split_and!; [exact Hnd | exact (Hcalls Hnd) | exact Hlen].
Defined.

Lemma constructor_registers_keyed_providers_witness :
  credentialFor Fixtures.twoKeys polygon = Some "pk"
  ∧ providers (Factory.new Fixtures.twoKeys) !! polygon = Some (construct polygon "pk")
  ∧ Factory.has (Factory.new Fixtures.twoKeys) polygon.
Proof.
  pose proof (constructor_registers_keyed_providers Fixtures.twoKeys polygon) as Hthm.
  cbv zeta in Hthm. destruct Hthm as (Hreg & Hhas & _).
  split_and!; [reflexivity | |].
  - apply (Hreg "pk"). split; [reflexivity|discriminate].
  - apply Hhas. exists "pk". split; [reflexivity|discriminate].
Defined.

Lemma accessors_agree_with_registry_witness :
  let this := Factory.new Fixtures.noCredentials in
  Factory.hasProviders this = false
  ∧ calls (Factory.perform this (OpQuote "SPY") 0%nat) = [].
Proof.
  intros this.
  destruct (accessors_agree_with_registry this) as (_ & _ & _ & _ & Hnone).
  split; [reflexivity|].
  pose proof (Hnone eq_refl ETFQuote (OpQuote "SPY") 0%nat) as Hout.
  cbv zeta in Hout. destruct Hout as (Hcalls & _). exact Hcalls.
Defined.

Lemma constructed_factory_stays_healthy_witness :
  let rs := [Fetch (OpQuote "SPY"); HealthCheck; Fetch (OpHistoricalData "SPY" "1day" 0 1)] in
  let this := (Factory.run (Factory.new Fixtures.twoKeys) 0%nat rs).1.1 in
  (∀ priority, SetProviderPriority priority ∉ rs)
  ∧ this = Factory.new Fixtures.twoKeys.
Proof.
  intros rs this.
  assert (∀ priority, SetProviderPriority priority ∉ rs) as Hno.
  { intros priority Hin.
    repeat (apply elem_of_cons in Hin as [Hin|Hin]; [discriminate Hin|]).
    by apply elem_of_nil in Hin. }
  pose proof (constructed_factory_stays_healthy (H0:=Fixtures.network) Fixtures.twoKeys 0%nat rs) as Hthm.
  cbv zeta in Hthm. destruct Hthm as (_ & _ & _ & Hsame).
  split; [exact Hno | exact (Hsame Hno)].
Defined.

Lemma blank_query_fails_in_each_provider_witness :
  let this := Factory.new Fixtures.twoKeys in
  let o := Factory.search this Fixtures.spaces None 0%nat in
  blank Fixtures.spaces = true
  ∧ Factory.invoked o = [polygon; eodhd]
  ∧ world_after o = 0%nat.
Proof.
  intros this o.
  pose proof (blank_query_fails_in_each_provider (H0:=Fixtures.network) Fixtures.twoKeys
                (providerPriority this) (healthStatus this) Fixtures.spaces None 0%nat
                eq_refl)
    as Hthm.
  cbv zeta in Hthm. destruct Hthm as (_ & Hnames & Hw & _).
  split_and!; [reflexivity | | exact Hw].
  etrans; [exact Hnames|reflexivity].
Defined.

(** In the fixture network the search for "SPY" finds one entry. *)
Lemma isHealthy_probes_with_a_search_witness :
  providers (Factory.new Fixtures.twoKeys) !! eodhd = Some (construct eodhd "ek")
  ∧ isHealthy (construct eodhd "ek") 0%nat = (true, 1%nat).
Proof.
  split; [reflexivity|].
  destruct (isHealthy_probes_with_a_search (H0:=Fixtures.network) Fixtures.twoKeys eodhd
              "ek" 0%nat eq_refl)
    as (_ & Hprobe & _).
  etrans; [exact Hprobe|reflexivity].
Defined.

Lemma setProviderPriority_replaces_witness :
  let this := Factory.new Fixtures.twoKeys in
  (∀ n, n ∈ [finnhub; fmp] → ¬ Factory.has this n)
  ∧ calls (Factory.perform (Factory.setProviderPriority this [finnhub; fmp])
             (OpQuote "SPY") 0%nat) = [].
Proof.
  intros this.
  assert (∀ n, n ∈ [finnhub; fmp] → ¬ Factory.has this n) as Hnone.
  { intros n Hin [p Hp].
    apply elem_of_cons in Hin as [->|Hin]; [discriminate Hp|].
    apply list_elem_of_singleton in Hin as ->. discriminate Hp. }
  destruct (setProviderPriority_replaces this [finnhub; fmp] []) as (_ & _ & _ & Hoff).
  split; [exact Hnone|].
  pose proof (Hoff Hnone ETFQuote (OpQuote "SPY") 0%nat) as Hout.
  cbv zeta in Hout. destruct Hout as (Hcalls & _). exact Hcalls.
Defined.

Lemma default_factory_is_built_once_witness :
  let first := Api.getDefaultETFProviderFactory Samples.someKeys None in
  first.1 = Api.createETFProviderFactory Samples.someKeys
  ∧ Api.getDefaultETFProviderFactory Samples.noKeys first.2 = first.
Proof.
  intros first.
  pose proof (default_factory_is_built_once (H0:=Fixtures.network) Samples.someKeys Samples.noKeys None) as Hthm.
  cbv zeta in Hthm. destruct Hthm as (_ & Hagain & Hfirst & _).
  split; [exact (Hfirst eq_refl) | exact Hagain].
Defined.

Lemma routes_reject_malformed_symbol_witness :
  (∀ symbol, Some "SPY1" = Some symbol → asciiOnly symbol = true)
  ∧ given (Some "SPY1") = Some "SPY1"
  ∧ ¬ ((1 ≤ String.length "SPY1" ≤ 5)%nat ∧ allLetters "SPY1" = true)
  ∧ Routes.countriesGET (Some "SPY1") None Samples.someKeys None 0%nat
    = (Routes.errorResponse 400 "Invalid symbol format", None, 0%nat).
Proof.
  assert (∀ symbol, Some "SPY1" = Some symbol → asciiOnly symbol = true) as Hascii
    by (by intros symbol [= <-]).
  assert (¬ ((1 ≤ String.length "SPY1" ≤ 5)%nat ∧ allLetters "SPY1" = true)) as Hbad
    by (intros [_ Hl]; discriminate Hl).
  destruct (routes_reject_malformed_symbol (H0:=Fixtures.network) (Some "SPY1") None None Samples.someKeys
              None 0%nat Hascii) as (_ & _ & Hrej).
  destruct (Hrej "SPY1" eq_refl Hbad) as (Hc & _).
  split_and!; [exact Hascii | reflexivity | exact Hbad | exact Hc].
Defined.


Lemma performance_route_never_serves_data_witness :
  let out := Routes.performanceGET (Some "spy") None (Some "1d, ytd")
               Samples.someKeys None 0%nat in
  fromConstructor (None : option ETFProviderFactory)
  ∧ status out.1.1 = 404
  ∧ out.2 = 0%nat.
Proof.
  intros out.
  pose proof (performance_route_never_serves_data (H0:=Fixtures.network) (Some "spy") None (Some "1d, ytd")
                Samples.someKeys None 0%nat I) as Hthm.
  cbv zeta in Hthm. destruct Hthm as (_ & _ & Hw & _).
  split_and!; [exact I | reflexivity | exact Hw].
Defined.

Lemma countries_route_answers_witness :
  let out := Routes.countriesGET (Some "spy") None Samples.someKeys None 0%nat in
  (∀ symbol, Some "spy" = Some symbol → asciiOnly symbol = true)
  ∧ fromConstructor (None : option ETFProviderFactory)
  ∧ status out.1.1 = 200
  ∧ json out.1.1 = DataJson (Value []) "EODHD" 1700000000001 (Some "SPY")
  ∧ fromConstructor out.1.2.
Proof.
  intros out.
  assert (∀ symbol, Some "spy" = Some symbol → asciiOnly symbol = true) as Hascii
    by (by intros symbol [= <-]).
  pose proof (countries_route_answers (H0:=Fixtures.network) (Some "spy") None
                Samples.someKeys None 0%nat Hascii I) as Hthm.
  cbv zeta in Hthm. destruct Hthm as (Hinv & _).
  split_and!; [exact Hascii | exact I | reflexivity | reflexivity | exact Hinv].
Defined.


(** Scenario 1 again: the test double has no [config], so [healthCheck]
    leaves it out of service. *)
Lemma healthCheck_reports_config_only_witness :
  providers Fixtures.scenario1 !! polygon = Some Fixtures.broken
  ∧ config Fixtures.broken = None
  ∧ healthStatus (Factory.healthCheck Fixtures.scenario1).2 !! polygon = Some false.
Proof.
  pose proof (healthCheck_reports_config_only (H0:=Fixtures.network) Fixtures.scenario1)
    as Hthm.
  cbv zeta in Hthm. destruct Hthm as (_ & Hreg & _).
  destruct (Hreg polygon Fixtures.broken eq_refl) as [_ Hsame].
  split_and!; [reflexivity | reflexivity |].
  etrans; [exact Hsame|reflexivity].
Defined.

End WorkedMore.
